(** * lab: remote discovery and merge-request method selection

    A shallow embedding of the parts of the [lab] command-line client that
    turn git remote URLs into a (domain, user, repository) triple, pick the
    GitLab remote among them, and select the merge-request method from the
    parsed command-line options.

    Go strings are byte strings: they are modelled by [string], whose
    characters are bytes.  A Go function returning [(T, error)] returns a
    pair of options ([None] is [nil]); a run-time panic is an explicit
    outcome. *)

From Stdlib Require Import ZArith Ascii.
From stdpp Require Import base option list strings gmap.

Local Open Scope Z_scope.
Local Open Scope nat_scope.

(** ** Outcomes of a Go call *)

Inductive panic : Type :=
  | IndexOutOfRange (index len : nat)
  | NilDereference.

Inductive outcome (A : Type) : Type :=
  | Returns (a : A)
  | Panics (p : panic).
Arguments Returns {A} a.
Arguments Panics {A} p.

#[global] Instance outcome_ret : MRet outcome := fun A a => Returns a.
#[global] Instance outcome_bind : MBind outcome := fun A B f m =>
  match m with
  | Returns a => f a
  | Panics p => Panics p
  end.

(** Go's [error] values built by [errors.New] / [fmt.Errorf]: the message. *)
Definition error : Type := string.

(** [s[i]] on a slice: panics out of range. *)
Definition at_index {A : Type} (l : list A) (i : nat) : outcome A :=
  match l !! i with
  | Some x => Returns x
  | None => Panics (IndexOutOfRange i (length l))
  end.

(** ** The functions of Go's [strings] package that the program calls *)

Module GoStrings.

(** [strings.HasPrefix]. *)
Fixpoint HasPrefix (s prefix : string) : bool :=
  match prefix, s with
  | "", _ => true
  | String p prefix', String c s' => Ascii.eqb c p && HasPrefix s' prefix'
  | String _ _, "" => false
  end.

(** [s[n:]] and [s[:n]] for [n <= len(s)]. *)
Fixpoint sliceFrom (s : string) (n : nat) : string :=
  match n, s with
  | S n', String _ s' => sliceFrom s' n'
  | _, _ => s
  end.

Fixpoint sliceTo (s : string) (n : nat) : string :=
  match n, s with
  | S n', String c s' => String c (sliceTo s' n')
  | _, _ => ""
  end.

(** [strings.HasSuffix] and [strings.TrimSuffix]. *)
Definition HasSuffix (s suffix : string) : bool :=
  bool_decide (String.length suffix ≤ String.length s)
  && String.eqb (sliceFrom s (String.length s - String.length suffix)) suffix.

Definition TrimSuffix (s suffix : string) : string :=
  if HasSuffix s suffix
  then sliceTo s (String.length s - String.length suffix)
  else s.

(** [strings.Cut]: the text before and after the first instance of [sep]. *)
Fixpoint Cut (s sep : string) : option (string * string) :=
  if HasPrefix s sep then Some ("", sliceFrom s (String.length sep))
  else match s with
       | "" => None
       | String c s' =>
           match Cut s' sep with
           | Some (before, after) => Some (String c before, after)
           | None => None
           end
       end.

(** [strings.Contains]. *)
Definition Contains (s substr : string) : bool :=
  match Cut s substr with Some _ => true | None => false end.

(** The loop of [strings.Split] for a non-empty separator: cut at the
    first instance, continue on the remainder.  Every cut removes at least
    one byte, so [len(s)] rounds are enough. *)
Fixpoint genSplit (rounds : nat) (s sep : string) : list string :=
  match rounds, Cut s sep with
  | S rounds', Some (before, after) => before :: genSplit rounds' after sep
  | _, _ => [s]
  end.

Fixpoint explode (s : string) : list string :=
  match s with
  | "" => []
  | String c s' => String c "" :: explode s'
  end.

(** [strings.Split].  The program only splits on non-empty separators; for
    the empty one Go splits after each UTF-8 sequence, which is [explode]
    on ASCII text. *)
Definition Split (s sep : string) : list string :=
  match sep with
  | "" => explode s
  | _ => genSplit (String.length s) s sep
  end.

(** [strings.TrimSpace(s) == ""]: every rune of [s] is white space in the
    sense of [unicode.IsSpace].  The runes are read off the UTF-8 bytes:
    the six ASCII ones, U+0085, U+00A0, U+1680, U+2000..U+200A, U+2028,
    U+2029, U+202F, U+205F and U+3000. *)
Definition byte (c : ascii) : N := N_of_ascii c.

Fixpoint isBlank (s : string) : bool :=
  match s with
  | "" => true
  | String c s1 =>
      if Ascii.is_space c then isBlank s1
      else match s1 with
           | String c1 s2 =>
               if (byte c =? 194)%N && ((byte c1 =? 133)%N || (byte c1 =? 160)%N)
               then isBlank s2
               else match s2 with
                    | String c2 s3 =>
                        let b := byte c in
                        let b1 := byte c1 in
                        let b2 := byte c2 in
                        if ((b =? 225) && (b1 =? 154) && (b2 =? 128)
                            || (b =? 226) && (b1 =? 128)
                               && ((128 <=? b2) && (b2 <=? 138)
                                   || (b2 =? 168) || (b2 =? 169) || (b2 =? 175))
                            || (b =? 226) && (b1 =? 129) && (b2 =? 159)
                            || (b =? 227) && (b1 =? 128) && (b2 =? 128))%N
                        then isBlank s3
                        else false
                    | "" => false
                    end
           | "" => false
           end
  end.

(** [strings.Join]. *)
Fixpoint Join (elems : list string) (sep : string) : string :=
  match elems with
  | [] => ""
  | [elem] => elem
  | elem :: elems' => elem +:+ sep +:+ Join elems' sep
  end.

End GoStrings.
Import GoStrings.

(** ** [strconv.Atoi] on a 64-bit platform *)

Module Strconv.

Definition digit (c : ascii) : option Z :=
  let b := N_of_ascii c in
  if ((48 <=? b) && (b <=? 57))%N then Some (Z.of_N b - 48)%Z else None.

(** The digit loop: [n = n*10 + int(ch - '0')]; any other byte (base 10
    takes no underscore) is a syntax error. *)
Fixpoint digits (s : string) (n : Z) : option Z :=
  match s with
  | "" => Some n
  | String ch s' =>
      match digit ch with
      | Some d => digits s' (n * 10 + d)%Z
      | None => None
      end
  end.

Definition minInt : Z := (- 2 ^ 63)%Z.
Definition maxInt : Z := (2 ^ 63 - 1)%Z.

(** [Atoi s]: an optional sign, then at least one decimal digit; the value
    must fit [int].  [None] is a non-nil [*NumError]. *)
Definition Atoi (s : string) : option Z :=
  let '(neg, s1) :=
    match s with
    | String "-" r => (true, r)
    | String "+" r => (false, r)
    | _ => (false, s)
    end in
  match s1 with
  | "" => None
  | _ =>
      match digits s1 0%Z with
      | Some un =>
          let n := if neg : bool then (- un)%Z else un in
          if bool_decide (minInt ≤ n ≤ maxInt)%Z then Some n else None
      | None => None
      end
  end.

End Strconv.

(** ** The browse command: remote URLs and their discovery *)

Module Browse.

Record RemoteUrl : Type := mkRemoteUrl {
  Url : string;
  Domain : string;
  User : string;
  Repository : string
}.

(** The zero value of the struct. *)
Definition zeroRemoteUrl : RemoteUrl :=
  {| Url := ""; Domain := ""; User := ""; Repository := "" |}.

(** The scheme branches of [NewRemoteUrl]: the text after the scheme, or
    [None] on the branch that returns the error. *)
Definition schemeRemainder (url : string) : outcome (option string) :=
  if HasPrefix url "ssh" then
    otherScheme ← at_index (Split url "@") 1;
    mret (Some (TrimSuffix otherScheme ".git"))
  else if HasPrefix url "https" then
    otherScheme ← at_index (Split url "//") 1;
    mret (Some otherScheme)
  else mret None.

Definition NewRemoteUrl (url : string)
  : outcome (option RemoteUrl * option error) :=
  remainder ← schemeRemainder url;
  match remainder with
  | None => mret (None, Some ("Invalid remote url: " +:+ url))
  | Some otherScheme =>
      let splitUrl := Split otherScheme "/" in
      domain ← at_index splitUrl 0;
      user ← at_index splitUrl 1;
      repository ← at_index splitUrl 2;
      mret (Some {| Url := url; Domain := domain;
                    User := user; Repository := repository |}, None)
  end.

(** The git binary, as the program sees it: the combined output of a
    command line. *)
Record GitEnv : Type := { cmdOutput : string → list string → string }.

Definition newline : string := String "010"%char "".

Definition gitOutputs (env : GitEnv) (name : string) (args : list string)
  : list string :=
  List.filter (λ line, negb (isBlank line))
              (Split (cmdOutput env name args) newline).

Definition gitOutput (env : GitEnv) (name : string) (args : list string)
  : outcome string :=
  at_index (gitOutputs env name args) 0.

(** One round of the loop of [GitRemotes]: resolve the URL of [remote]. *)
Definition remoteUrlText (env : GitEnv) (remote : string) : outcome string :=
  gitOutput env "git" ["remote"; "get-url"; remote].

Fixpoint GitRemotes_loop (env : GitEnv) (remotes : list string)
    (gitRemotes : list RemoteUrl) : outcome (list RemoteUrl * option error) :=
  match remotes with
  | [] => mret (gitRemotes, None)
  | remote :: remotes' =>
      url ← remoteUrlText env remote;
      r ← NewRemoteUrl url;
      match r with
      | (_, Some _) =>
          mret ([], Some ("Failed serialize remote url. " +:+ url))
      | (None, None) => Panics NilDereference
      | (Some gitRemote, None) =>
          GitRemotes_loop env remotes' (gitRemotes ++ [gitRemote])
      end
  end.

Definition GitRemotes (env : GitEnv) : outcome (list RemoteUrl * option error) :=
  let remotes := gitOutputs env "git" ["remote"] in
  if bool_decide (length remotes = 0) then
    mret ([], Some "No remote setting in this repository")
  else GitRemotes_loop env remotes [zeroRemoteUrl].

Definition isGitlab (gitRemote : RemoteUrl) : bool :=
  HasPrefix (Domain gitRemote) "gitlab".

Definition FilterGitlabRemote (gitRemotes : list RemoteUrl)
  : option RemoteUrl * option error :=
  match List.filter isGitlab gitRemotes with
  | gitLabRemote :: _ => (Some gitLabRemote, None)
  | [] => (None, Some "Not a cloned repository from gitlab.")
  end.

(** The discovery steps of [BrowseCommand.Run]: [GitRemotes], then
    [FilterGitlabRemote]; the first error ends the run. *)
Definition discover (env : GitEnv) : outcome (option RemoteUrl * option error) :=
  r ← GitRemotes env;
  match r with
  | (_, Some err) => mret (None, Some err)
  | (gitRemotes, None) => mret (FilterGitlabRemote gitRemotes)
  end.

Definition ExitCodeOK : Z := 0.
Definition ExitCodeError : Z := 1.
Definition ExitCodeFileError : Z := 2.

Definition ConcatUrl (r : RemoteUrl) : string :=
  let params := Join [Domain r; User r; Repository r] "/" in
  "https://" +:+ params.

(** The launchers tried on the other systems, in this order. *)
Definition candidates : list string :=
  ["xdg-open"; "cygstart"; "x-www-browser"; "firefox"; "opera"; "mozilla";
   "netscape"].

(** The loop over the candidates: [lookPath] is [exec.LookPath], which
    returns a path, or an error when the program is not on the search path.
    The named result [browser] starts empty. *)
Fixpoint searchCandidates (lookPath : string → string * option error)
    (bs : list string) : string :=
  match bs with
  | [] => ""
  | b :: bs' =>
      match lookPath b with
      | (path, None) => path
      | (_, Some _) => searchCandidates lookPath bs'
      end
  end.

Definition searchBrowserLauncher (lookPath : string → string * option error)
    (goos : string) : string :=
  if String.eqb goos "darwin" then "open"
  else if String.eqb goos "windows" then "cmd /c start"
  else searchCandidates lookPath candidates.

(** What a run of the command leaves behind: its exit code, the lines it
    printed itself with [fmt.Println], and the command lines it executed
    besides git.  What the flag package writes about a flag it refuses is
    not part of it. *)
Record Ran : Type := {
  exitCode : Z;
  printed : list string;
  executed : list (string * list string)
}.

(** [BrowseCommand.Run].  [parse] is [flags.Parse] on the flag set of the
    command, [goos] is [runtime.GOOS]. *)
Definition Run (parse : list string → option error)
    (lookPath : string → string * option error) (goos : string)
    (env : GitEnv) (args : list string) : outcome Ran :=
  match parse args with
  | Some _ =>
      mret {| exitCode := ExitCodeError; printed := []; executed := [] |}
  | None =>
      r ← GitRemotes env;
      match r with
      | (_, Some err) =>
          mret {| exitCode := ExitCodeError; printed := [err];
                  executed := [] |}
      | (gitRemotes, None) =>
          match FilterGitlabRemote gitRemotes with
          | (_, Some err) =>
              mret {| exitCode := ExitCodeError; printed := [err];
                      executed := [] |}
          | (None, None) => Panics NilDereference
          | (Some gitlabRemote, None) =>
              let browser := searchBrowserLauncher lookPath goos in
              mret {| exitCode := ExitCodeOK; printed := [];
                      executed := [(browser, [ConcatUrl gitlabRemote])] |}
          end
      end
  end.

End Browse.
Import Browse.

(** ** The merge-request command *)

Module MR.

Record CreateUpdateMergeRequestOption : Type := {
  Edit : bool;
  Title : string;
  Message : string;
  Template : string;
  SourceBranch : string;
  TargetBranch : string;
  StateEvent : string;
  AssigneeID : Z
}.

Record ListMergeRequestOption : Type := {
  Num : Z;
  State : string;
  Scope : string;
  OrderBy : string;
  Sort : string;
  Opened : bool;
  Closed : bool;
  Merged : bool;
  CreatedMe : bool;
  AssignedMe : bool;
  AllProject : bool
}.

Definition GetState (l : ListMergeRequestOption) : string :=
  if Opened l then "opened"
  else if Closed l then "closed"
  else if Merged l then "merged"
  else State l.

Definition GetScope (l : ListMergeRequestOption) : string :=
  if CreatedMe l then "created-by-me"
  else if AssignedMe l then "assigned-to-me"
  else Scope l.

(** What the flag parser stores in a string field tagged [default:"..."]:
    the text given on the command line, the tag's default without one. *)
Definition flagValue (default : string) (given : option string) : string :=
  match given with
  | Some text => text
  | None => default
  end.

(** The list options as the parser fills them: every string and the limit
    from the command line or from the [default] tag of its field, the
    booleans from their flags. *)
Definition parsedListOption (num : option Z)
    (state scope orderby sort : option string)
    (opened closed merged createdMe assignedMe allProject : bool)
  : ListMergeRequestOption :=
  {| Num := match num with Some n => n | None => 20%Z end;
     State := flagValue "all" state;
     Scope := flagValue "all" scope;
     OrderBy := flagValue "updated_at" orderby;
     Sort := flagValue "desc" sort;
     Opened := opened; Closed := closed; Merged := merged;
     CreatedMe := createdMe; AssignedMe := assignedMe;
     AllProject := allProject |}.

(** Both pointers are set by [newMergeRequestOptionParser] before parsing. *)
Record MergeRequestCommandOption : Type := {
  CreateUpdateOption : CreateUpdateMergeRequestOption;
  ListOption : ListMergeRequestOption
}.

Definition hasCreateUpdateOption (opt : CreateUpdateMergeRequestOption) : bool :=
  if negb (String.eqb (Title opt) "") || negb (String.eqb (Message opt) "")
     || negb (String.eqb (StateEvent opt) "") || negb (AssigneeID opt =? 0)%Z
  then true
  else false.

Definition validMergeRequestIID (args : list string) : Z * option error :=
  match args with
  | [] => (0%Z, None)
  | arg0 :: _ =>
      match Strconv.Atoi arg0 with
      | Some iid => (iid, None)
      | None => (0%Z, Some ("Invalid Issue IID. IID: " +:+ arg0))
      end
  end.

Section Selection.

(** The collaborators of [getMethod] live in other packages: the clients a
    provider hands out, the remote and its full repository name, and the
    editor callback are left abstract. *)
Context {MergeRequestClient RepositoryClient RemoteInfo EditFunc : Type}.
Variable RepositoryFullName : RemoteInfo → string.

Record Provider : Type := {
  GetMergeRequestClient : RemoteInfo → MergeRequestClient * option error;
  GetRepositoryClient : RemoteInfo → RepositoryClient * option error
}.

Record MergeRequestCommand : Type := {
  provider : Provider;
  editFunc : EditFunc
}.

(** The seven method structs [getMethod] builds, with their fields. *)
Inductive Method : Type :=
  | updateOnEditorMethod (client : MergeRequestClient)
      (opt : CreateUpdateMergeRequestOption) (project : string) (id : Z)
      (edit : EditFunc)
  | updateMethod (client : MergeRequestClient)
      (opt : CreateUpdateMergeRequestOption) (project : string) (id : Z)
  | detailMethod (client : MergeRequestClient) (project : string) (id : Z)
  | createOnEditorMethod (client : MergeRequestClient)
      (repositoryClient : RepositoryClient)
      (opt : CreateUpdateMergeRequestOption) (project : string)
      (edit : EditFunc)
  | createMethod (client : MergeRequestClient)
      (opt : CreateUpdateMergeRequestOption) (project : string)
  | listAllMethod (client : MergeRequestClient) (opt : ListMergeRequestOption)
  | listMethod (client : MergeRequestClient) (opt : ListMergeRequestOption)
      (project : string).

Definition getMethod (c : MergeRequestCommand) (opt : MergeRequestCommandOption)
    (args : list string) (remote : RemoteInfo) : option Method * option error :=
  let createUpdateOption := CreateUpdateOption opt in
  let listOption := ListOption opt in
  match GetMergeRequestClient (provider c) remote with
  | (_, Some err) => (None, Some err)
  | (client, None) =>
  match GetRepositoryClient (provider c) remote with
  | (_, Some err) => (None, Some err)
  | (repositoryClient, None) =>
  match validMergeRequestIID args with
  | (_, Some err) => (None, Some err)
  | (iid, None) =>
      if bool_decide (0 < length args) then
        if Edit createUpdateOption then
          (Some (updateOnEditorMethod client createUpdateOption
                   (RepositoryFullName remote) iid (editFunc c)), None)
        else if hasCreateUpdateOption createUpdateOption then
          (Some (updateMethod client createUpdateOption
                   (RepositoryFullName remote) iid), None)
        else
          (Some (detailMethod client (RepositoryFullName remote) iid), None)
      else if Edit createUpdateOption then
        (Some (createOnEditorMethod client repositoryClient createUpdateOption
                 (RepositoryFullName remote) (editFunc c)), None)
      else if negb (String.eqb (Title createUpdateOption) "") then
        (Some (createMethod client createUpdateOption
                 (RepositoryFullName remote)), None)
      else if AllProject listOption then
        (Some (listAllMethod client listOption), None)
      else
        (Some (listMethod client listOption (RepositoryFullName remote)), None)
  end end end.

End Selection.

(** *** The editor flow

    The editor lives in the [git] package; the program sees it through
    [NewEditor], [EditTitleAndDescription] and [DeleteFile].  The files of
    the working copy are the set of paths that exist. *)

(** Modelled from the spec: the editor of the [git] package, which is not
    part of these sources, known here by the temporary file that backs it;
    [DeleteFile] removes that file. *)
Record Editor : Type := { File : string }.

Definition DeleteFile (editor : Editor) (files : gset string) : gset string :=
  files ∖ {[ File editor ]}.

Section EditorFlow.

Context {EditFunc : Type}.

(** The two other entry points of the package, with the files they leave
    behind.  [NewEditor] returns a pointer, [None] for [nil]; what the method
    does on a [nil] receiver is the package's business. *)
Variable NewEditor :
  string → string → string → EditFunc → gset string →
  (option Editor * option error) * gset string.
Variable EditTitleAndDescription :
  option Editor → gset string →
  outcome (string * string * option error) * gset string.

(** The [defer] statement is reached, and so registered, only after both
    error returns; the deferred call runs when the function returns from its
    last line. *)
Definition editIssueTitleAndDesc (template : string) (editFunc : EditFunc)
    (files : gset string)
  : outcome (string * string * option error) * gset string :=
  match NewEditor "ISSUE" "issue" template editFunc files with
  | ((_, Some err), files1) => (Returns ("", "", Some err), files1)
  | ((editor, None), files1) =>
      match EditTitleAndDescription editor files1 with
      | (Panics p, files2) => (Panics p, files2)
      | (Returns (_, _, Some err), files2) =>
          (Returns ("", "", Some err), files2)
      | (Returns (title, description, None), files2) =>
          (Returns (title, description, None),
           match editor with
           | Some e => DeleteFile e files2
           | None => files2
           end)
      end
  end.

End EditorFlow.

(** *** The template and the run of the command *)

(** [fmt.Sprintf] of the two strings into the three-line pattern. *)
Definition editMergeRequestTemplate (title description : string) : string :=
  title +:+ newline +:+ newline +:+ description +:+ newline.

Definition ExitCodeOK : Z := 0.
Definition ExitCodeError : Z := 1.
Definition ExitCodeFileError : Z := 2.

(** The calls made on the [Ui] of the command. *)
Inductive UiCall : Type :=
  | UiError (msg : string)
  | UiMessage (msg : string).

Section Running.

Context {MergeRequestClient RepositoryClient RemoteInfo EditFunc : Type}.
Variable RepositoryFullName : RemoteInfo → string.

(** The other collaborators of [Run]: the option parser with the remaining
    arguments it returns, the two further methods of the provider, and
    [Process] of the selected method. *)
Variable ParseArgs :
  list string → (MergeRequestCommandOption * list string) * option error.
Variable Init : option error.
Variable GetCurrentRemote : RemoteInfo * option error.
Variable Process :
  @Method MergeRequestClient RepositoryClient EditFunc → string * option error.

Definition Run
    (c : @MergeRequestCommand MergeRequestClient RepositoryClient RemoteInfo
           EditFunc)
    (args : list string) : outcome (Z * list UiCall) :=
  match ParseArgs args with
  | (_, Some err) => mret (ExitCodeError, [UiError err])
  | ((mergeRequestCommandOption, parseArgs), None) =>
  match Init with
  | Some err => mret (ExitCodeError, [UiError err])
  | None =>
  match GetCurrentRemote with
  | (_, Some err) => mret (ExitCodeError, [UiError err])
  | (gitlabRemote, None) =>
  match getMethod RepositoryFullName c mergeRequestCommandOption parseArgs
          gitlabRemote with
  | (_, Some err) => mret (ExitCodeError, [UiError err])
  | (None, None) => Panics NilDereference
  | (Some method, None) =>
  match Process method with
  | (_, Some err) => mret (ExitCodeError, [UiError err])
  | (res, None) =>
      if negb (String.eqb res "") then mret (ExitCodeOK, [UiMessage res])
      else mret (ExitCodeOK, [])
  end end end end end.

End Running.

End MR.
Import MR.

(** ** The configuration file *)

Module Config.

(** The part of the machine the configuration code acts on: the files with
    their contents, and what was written to the standard output. *)
Record World : Type := {
  files : gmap string string;
  stdout : list string
}.

(** What the code calls outside itself: [viper.ReadInConfig] with the name,
    type and paths that [ReadConfig] sets, as a function of the files;
    [homedir.Dir]; the error of [os.Create] on a path, if any; the text of
    the line that the scanner reads from the standard input (empty at the
    end of the input); and [Write] on the created file: what reaches the
    file, and the error. *)
Record Machine : Type := {
  ReadInConfig : gmap string string → option error;
  homeDir : string * option error;
  createError : string → option error;
  scanned : string;
  fileWrite : string → string * option error
}.

Definition configFile (dir : string) : string := dir +:+ "/.labconfig.yml".

Definition prompt : string := "Plase input GitLab private token :".

(** [os.Create] makes the file, or truncates the one that is there. *)
Definition CreateConfig (m : Machine) (w : World) : option error * World :=
  match homeDir m with
  | (_, Some err) => (Some ("Failed get home dir: " +:+ err), w)
  | (dir, None) =>
      match createError m (configFile dir) with
      | Some err => (Some ("Failed create config file: " +:+ err), w)
      | None =>
          let created := <[configFile dir := ""]> (files w) in
          let out := stdout w ++ [prompt] in
          match fileWrite m ("private_token: " +:+ scanned m) with
          | (written, Some err) =>
              (Some ("Failed write config file: " +:+ err),
               {| files := <[configFile dir := written]> created;
                  stdout := out |})
          | (written, None) =>
              (None, {| files := <[configFile dir := written]> created;
                        stdout := out |})
          end
      end
  end.

Definition ReadConfig (m : Machine) (w : World) : option error * World :=
  match ReadInConfig m (files w) with
  | None => (None, w)
  | Some _ =>
      match CreateConfig m w with
      | (Some err, w1) => (Some ("Failed create config file: " +:+ err), w1)
      | (None, w1) =>
          match ReadInConfig m (files w1) with
          | Some err => (Some ("Failed read config file: " +:+ err), w1)
          | None => (None, w1)
          end
      end
  end.

End Config.

(** * Vocabulary of the statements *)

(** A path segment of a well-formed remote URL: not empty, and without a
    slash. *)
Definition segment (s : string) : Prop :=
  s ≠ "" ∧ Contains s "/" = false.

(** The identity of one configured remote, as a round of the loop of
    [GitRemotes] computes it: resolve the URL, parse it. *)
Definition remoteIdentity (env : GitEnv) (remote : string)
  : outcome (option RemoteUrl * option error) :=
  url ← remoteUrlText env remote; NewRemoteUrl url.

(** [ids] are the identities of [remotes], one by one, all parsed. *)
Definition identified (env : GitEnv) (remotes : list string)
    (ids : list RemoteUrl) : Prop :=
  Forall2 (λ remote r, remoteIdentity env remote = Returns (Some r, None))
          remotes ids.

(** A call that hands back no identity: an error, or a panic. *)
Definition failed (o : outcome (option RemoteUrl * option error)) : Prop :=
  match o with
  | Returns (None, Some _) => True
  | Returns _ => False
  | Panics _ => True
  end.

(** Text made of ASCII white space only. *)
Fixpoint allSpace (s : string) : bool :=
  match s with
  | "" => true
  | String c s' => Ascii.is_space c && allSpace s'
  end.

(** A working copy for the examples: the output of [git remote], and the
    output of [git remote get-url] for each name. *)
Fixpoint urlOf (urls : list (string * string)) (remote : string) : string :=
  match urls with
  | [] => ""
  | (name, text) :: urls' =>
      if String.eqb name remote then text else urlOf urls' remote
  end.

Definition workingCopy (listing : string) (urls : list (string * string))
  : GitEnv :=
  {| cmdOutput := λ _ args,
       match args with
       | ["remote"] => listing
       | ["remote"; "get-url"; remote] => urlOf urls remote
       | _ => ""
       end |}.

Definition labUrl : RemoteUrl :=
  {| Url := "ssh://git@gitlab.com/lighttiger2505/lab.git";
     Domain := "gitlab.com"; User := "lighttiger2505"; Repository := "lab" |}.

Definition hubUrl : RemoteUrl :=
  {| Url := "https://github.com/lighttiger2505/lab";
     Domain := "github.com"; User := "lighttiger2505"; Repository := "lab" |}.

Definition widgetsUrl : RemoteUrl :=
  {| Url := "https://gitlab.example.com/acme/widgets";
     Domain := "gitlab.example.com"; User := "acme"; Repository := "widgets" |}.

Definition threeRemotes : GitEnv :=
  workingCopy ("origin" +:+ newline +:+ "upstream" +:+ newline
               +:+ "mirror" +:+ newline)
    [("origin", Url hubUrl +:+ newline);
     ("upstream", Url labUrl +:+ newline);
     ("mirror", Url widgetsUrl +:+ newline)].

Definition hubOnly : GitEnv :=
  workingCopy ("origin" +:+ newline) [("origin", Url hubUrl +:+ newline)].

Definition scpStyle : GitEnv :=
  workingCopy ("origin" +:+ newline +:+ "upstream" +:+ newline)
    [("origin", Url labUrl +:+ newline);
     ("upstream", "git@gitlab.com:lighttiger2505/lab.git" +:+ newline)].

Definition noRemote : GitEnv := workingCopy "" [].


(** ** Selection, in the words of the specification *)

Inductive Operation : Type :=
  | ListAll | ListForProject | Show
  | Create | CreateViaEditor | Update | UpdateViaEditor.

(** The fixed precedence: with an identifier, the edit flag, then content,
    then show; without one, the edit flag, then a title, then the
    all-project flag, then the project's list. *)
Definition selectOperation
    (hasIdentifier edit hasContent hasTitle allProject : bool) : Operation :=
  if hasIdentifier then
    if edit then UpdateViaEditor
    else if hasContent then Update
    else Show
  else
    if edit then CreateViaEditor
    else if hasTitle then Create
    else if allProject then ListAll
    else ListForProject.

(** Some content field (title, message, state event, assignee) is not at
    its default. *)
Definition hasContent (opt : CreateUpdateMergeRequestOption) : bool :=
  bool_decide (Title opt ≠ "" ∨ Message opt ≠ "" ∨ StateEvent opt ≠ ""
               ∨ AssigneeID opt ≠ 0%Z).

Definition operationOf
    {MergeRequestClient RepositoryClient EditFunc : Type}
    (m : @Method MergeRequestClient RepositoryClient EditFunc) : Operation :=
  match m with
  | updateOnEditorMethod _ _ _ _ _ => UpdateViaEditor
  | updateMethod _ _ _ _ => Update
  | detailMethod _ _ _ => Show
  | createOnEditorMethod _ _ _ _ _ => CreateViaEditor
  | createMethod _ _ _ => Create
  | listAllMethod _ _ => ListAll
  | listMethod _ _ _ => ListForProject
  end.

(** The identifier a method carries. *)
Definition identifierOf
    {MergeRequestClient RepositoryClient EditFunc : Type}
    (m : @Method MergeRequestClient RepositoryClient EditFunc) : option Z :=
  match m with
  | updateOnEditorMethod _ _ _ id _ | updateMethod _ _ _ id
  | detailMethod _ _ id => Some id
  | _ => None
  end.

(** An ordered rule list: the value of the first rule whose flag is set. *)
Fixpoint firstMatch (rules : list (bool * string)) (otherwise : string)
  : string :=
  match rules with
  | [] => otherwise
  | (flag, value) :: rules' =>
      if flag then value else firstMatch rules' otherwise
  end.

(** ** Integer literals *)

Definition isDigit (c : ascii) : bool :=
  match c with
  | "0" | "1" | "2" | "3" | "4" | "5" | "6" | "7" | "8" | "9" => true
  | _ => false
  end%char.

Fixpoint allDigits (s : string) : bool :=
  match s with
  | "" => true
  | String c s' => isDigit c && allDigits s'
  end.

(** A non-negative literal: one decimal digit or more. *)
Definition unsignedLiteral (s : string) : bool :=
  negb (String.eqb s "") && allDigits s.

(** The number a string of digits denotes, digit by digit with its weight. *)
Fixpoint denotes (s : string) : Z :=
  match s with
  | "" => 0
  | String c s' =>
      ((Z.of_N (N_of_ascii c) - 48) * 10 ^ Z.of_nat (String.length s')
       + denotes s')%Z
  end.

(** An integer literal: an optional sign, then a non-negative literal. *)
Definition integerLiteral (s : string) : option Z :=
  match s with
  | String "-" body =>
      if unsignedLiteral body then Some (- denotes body)%Z else None
  | String "+" body =>
      if unsignedLiteral body then Some (denotes body) else None
  | _ => if unsignedLiteral s then Some (denotes s) else None
  end.

(** ** A command line for the examples: [--edit --title x] *)

Definition editWithTitle : MergeRequestCommandOption :=
  {| CreateUpdateOption :=
       {| Edit := true; Title := "x"; Message := ""; Template := "";
          SourceBranch := ""; TargetBranch := "master";
          StateEvent := ""; AssigneeID := 0 |};
     ListOption := parsedListOption None None None None None
                     false false false false false false |}.

Definition unitCommand : @MergeRequestCommand unit unit unit unit :=
  {| provider := {| GetMergeRequestClient := λ _, ((), None);
                    GetRepositoryClient := λ _, ((), None) |};
     editFunc := () |}.

(** [--title "Fix bug"] in a working copy whose only remote is the widgets
    project. *)
Definition titleOnly : MergeRequestCommandOption :=
  {| CreateUpdateOption :=
       {| Edit := false; Title := "Fix bug"; Message := ""; Template := "";
          SourceBranch := ""; TargetBranch := "master";
          StateEvent := ""; AssigneeID := 0 |};
     ListOption := parsedListOption None None None None None
                     false false false false false false |}.

Definition widgetsOnly : GitEnv :=
  workingCopy "origin" [("origin", Url widgetsUrl)].

(** ** An editor for the examples *)

Definition issueEditor : Editor := {| File := ".git/ISSUE_EDITMSG" |}.

Definition newIssueEditor (filePrefix topic message : string) (edit : unit)
    (files : gset string) : (option Editor * option error) * gset string :=
  ((Some issueEditor, None), files).

(** The editor session writes the template file; the editor program then
    exits with an error, or the text is read back. *)
Definition writeTemplate (editor : option Editor) (files : gset string)
  : gset string :=
  match editor with
  | Some e => {[ File e ]} ∪ files
  | None => files
  end.

Definition failingEdit (editor : option Editor) (files : gset string)
  : outcome (string * string * option error) * gset string :=
  (Returns ("", "", Some "exit status 1"), writeTemplate editor files).

Definition completedEdit (editor : option Editor) (files : gset string)
  : outcome (string * string * option error) * gset string :=
  (Returns ("Fix bug", "", None), writeTemplate editor files).

(** ** A search path for the examples: only firefox is installed *)

Definition firefoxOnly (b : string) : string * option error :=
  if String.eqb b "firefox" then ("/usr/bin/firefox", None)
  else ("", Some "executable file not found in $PATH").




(** ** Collaborators of the merge-request run for the examples *)

Definition parseTitleOnly (args : list string)
  : (MergeRequestCommandOption * list string) * option error :=
  ((titleOnly, args), None).

Definition processQuietly (m : @Method unit unit unit) : string * option error :=
  ("", None).

(** ** A machine for the examples of the configuration file *)

Definition configPath : string := "/home/me/.labconfig.yml".

(** A reader that accepts the file once it starts with the token key. *)
Definition tokenReader (files : gmap string string) : option error :=
  match files !! configPath with
  | Some text =>
      if HasPrefix text "private_token: " then None
      else Some "yaml: unmarshal errors"
  | None => Some "Config File Not Found"
  end.

Definition myMachine : Config.Machine :=
  {| Config.ReadInConfig := tokenReader;
     Config.homeDir := ("/home/me", None);
     Config.createError := λ _, None;
     Config.scanned := "s3cret";
     Config.fileWrite := λ data, (data, None) |}.

Definition homeless : Config.Machine :=
  {| Config.ReadInConfig := tokenReader;
     Config.homeDir := ("", Some "$HOME is not defined");
     Config.createError := λ _, None;
     Config.scanned := "s3cret";
     Config.fileWrite := λ data, (data, None) |}.

(** A stale configuration file is there, and one other file. *)
Definition staleWorld : Config.World :=
  {| Config.files := {[ configPath := "token" ; "/home/me/notes" := "keep" ]};
     Config.stdout := [] |}.

(** * Properties *)

#[local] Arguments String.append !s1 s2 / : simpl nomatch.
#[local] Arguments Split : simpl never.

(** ** Strings *)

Lemma string_length_app (a b : string) :
  String.length (a +:+ b) = String.length a + String.length b.
Proof. induction a as [|c a IH]; simpl; [done | by rewrite IH]. Qed.

Lemma string_app_nil_r (a : string) : a +:+ "" = a.
Proof. induction a as [|c a IH]; simpl; [done | by rewrite IH]. Qed.

Lemma string_app_assoc (a b c : string) : (a +:+ b) +:+ c = a +:+ b +:+ c.
Proof. induction a as [|x a IH]; simpl; [done | by rewrite IH]. Qed.

Lemma HasPrefix_app (p s : string) : HasPrefix (p +:+ s) p = true.
Proof.
  induction p as [|c p IH]; simpl; [by destruct s |].
  by rewrite Ascii.eqb_refl, IH.
Qed.

Lemma sliceFrom_app (a b : string) : sliceFrom (a +:+ b) (String.length a) = b.
Proof. induction a as [|c a IH]; simpl; [by destruct b | done]. Qed.

Lemma sliceTo_app (a b : string) : sliceTo (a +:+ b) (String.length a) = a.
Proof.
  induction a as [|c a IH]; simpl; [by destruct b | by rewrite IH].
Qed.

Lemma TrimSuffix_app (a suffix : string) : TrimSuffix (a +:+ suffix) suffix = a.
Proof.
  unfold TrimSuffix, HasSuffix.
  rewrite string_length_app.
  replace (String.length a + String.length suffix - String.length suffix)
    with (String.length a) by lia.
  rewrite sliceFrom_app, sliceTo_app, String.eqb_refl.
  rewrite bool_decide_eq_true_2 by lia. done.
Qed.

Lemma HasPrefix_nil (s : string) : HasPrefix s "" = true.
Proof. by destruct s. Qed.

Lemma HasPrefix_length (s sep : string) :
  HasPrefix s sep = true →
  String.length (sliceFrom s (String.length sep)) + String.length sep
  = String.length s.
Proof.
  revert s; induction sep as [|p sep IH]; intros [|c s]; simpl; try done.
  intros [_ H]%andb_true_iff. specialize (IH _ H). lia.
Qed.

(** *** [Cut] *)

Lemma Cut_eq (s sep : string) :
  Cut s sep =
  if HasPrefix s sep then Some ("", sliceFrom s (String.length sep))
  else match s with
       | "" => None
       | String c s' =>
           match Cut s' sep with
           | Some (before, after) => Some (String c before, after)
           | None => None
           end
       end.
Proof. by destruct s. Qed.

Lemma Cut_sep_head (sep t : string) : Cut (sep +:+ t) sep = Some ("", t).
Proof. by rewrite Cut_eq, HasPrefix_app, sliceFrom_app. Qed.

Lemma Cut_length (s sep before after : string) :
  sep ≠ "" → Cut s sep = Some (before, after) →
  String.length after < String.length s.
Proof.
  intros Hsep. revert before after.
  induction s as [|c s IH]; intros before after; rewrite Cut_eq.
  - destruct sep; [done | simpl; done].
  - destruct (HasPrefix (String c s) sep) eqn:Hp.
    + intros [= _ <-]. apply HasPrefix_length in Hp.
      destruct sep; [done | simpl in *; lia].
    + destruct (Cut s sep) as [[b a]|] eqn:Hc; [|done].
      intros [= _ <-]. specialize (IH _ _ eq_refl). simpl. lia.
Qed.

(** *** [Split] *)

Lemma genSplit_rounds (sep : string) (n m : nat) (s : string) :
  sep ≠ "" → String.length s ≤ n → String.length s ≤ m →
  genSplit n s sep = genSplit m s sep.
Proof.
  intros Hsep. revert m s.
  induction n as [|n IH]; intros [|m] s Hn Hm; simpl; try done.
  - destruct (Cut s sep) as [[b a]|] eqn:Hc; [|done].
    apply Cut_length in Hc; [lia | done].
  - destruct (Cut s sep) as [[b a]|] eqn:Hc; [|done].
    apply Cut_length in Hc; [lia | done].
  - destruct (Cut s sep) as [[b a]|] eqn:Hc; [|done].
    pose proof (Cut_length _ _ _ _ Hsep Hc). f_equal. apply IH; lia.
Qed.

Lemma Split_eq (s sep : string) :
  sep ≠ "" →
  Split s sep =
  match Cut s sep with
  | Some (before, after) => before :: Split after sep
  | None => [s]
  end.
Proof.
  intros Hsep. destruct sep as [|c sep']; [done |]. unfold Split.
  destruct (Cut s (String c sep')) as [[b a]|] eqn:Hc.
  - pose proof (Cut_length _ _ _ _ Hsep Hc).
    destruct (String.length s) as [|n] eqn:Hn; [lia |].
    simpl. rewrite Hc. f_equal. apply genSplit_rounds; [done | lia..].
  - destruct (String.length s); simpl; [done | by rewrite Hc].
Qed.

(** Induction along the cuts of [Split]. *)
Lemma Split_ind (sep : string) (P : string → list string → Prop) :
  sep ≠ "" →
  (∀ s, Cut s sep = None → P s [s]) →
  (∀ s before after, Cut s sep = Some (before, after) →
     P after (Split after sep) → P s (before :: Split after sep)) →
  ∀ s, P s (Split s sep).
Proof.
  intros Hsep Hnone Hsome s.
  remember (String.length s) as n eqn:Hn. revert s Hn.
  induction n as [n IH] using lt_wf_ind. intros s ->.
  rewrite Split_eq by done.
  destruct (Cut s sep) as [[b a]|] eqn:Hc; [|by apply Hnone].
  apply Hsome; [done |].
  eapply IH; [|done]. by eapply Cut_length.
Qed.

Lemma Split_not_nil (s sep : string) : Split s sep ≠ [] ∨ sep = "".
Proof.
  destruct sep as [|c sep']; [by right | left].
  rewrite Split_eq by done. by destruct (Cut _ _) as [[? ?]|].
Qed.


(** *** Splitting on one byte *)

Section SplitOnByte.

Variable c : ascii.

Lemma Contains_cons (x : ascii) (s : string) :
  Contains (String x s) (String c "") = false ↔
  x ≠ c ∧ Contains s (String c "") = false.
Proof.
  unfold Contains. rewrite (Cut_eq (String x s)). simpl.
  rewrite HasPrefix_nil, andb_true_r.
  destruct (Ascii.eqb_spec x c) as [->|Hne].
  - split; [done | by intros [? _]].
  - destruct (Cut s (String c "")) as [[b a]|]; split; try done.
    by intros [_ ?].
Qed.

Lemma Cut_no_first_byte (sep' s : string) :
  Contains s (String c "") = false → Cut s (String c sep') = None.
Proof.
  induction s as [|x s IH]; [done |].
  intros [Hne Hs]%Contains_cons. rewrite Cut_eq. simpl.
  apply Ascii.eqb_neq in Hne. rewrite Hne. simpl. by rewrite IH.
Qed.

Lemma Cut_app_no_first_byte (sep' b t : string) :
  Contains b (String c "") = false →
  Cut (b +:+ t) (String c sep') =
  match Cut t (String c sep') with
  | Some (before, after) => Some (b +:+ before, after)
  | None => None
  end.
Proof.
  induction b as [|x b IH]; simpl.
  - intros _. by destruct (Cut t (String c sep')) as [[? ?]|].
  - intros [Hne Hb]%Contains_cons.
    apply Ascii.eqb_neq in Hne. rewrite Hne. simpl. rewrite IH by done.
    by destruct (Cut t (String c sep')) as [[? ?]|].
Qed.

Lemma Cut_before_no_byte (s before after : string) :
  Cut s (String c "") = Some (before, after) →
  Contains before (String c "") = false.
Proof.
  revert before after. induction s as [|x s IH]; intros before after.
  - done.
  - rewrite Cut_eq. simpl. rewrite HasPrefix_nil, andb_true_r.
    destruct (Ascii.eqb_spec x c) as [->|Hne].
    + by intros [= <- _].
    + destruct (Cut s (String c "")) as [[b a]|] eqn:Hc; [|done].
      intros [= <- _]. apply Contains_cons. split; [done |]. by eapply IH.
Qed.

Lemma Split_no_byte (s : string) :
  Contains s (String c "") = false → Split s (String c "") = [s].
Proof.
  intros H. rewrite Split_eq by done. by rewrite Cut_no_first_byte.
Qed.

Lemma Split_app_byte (b t : string) :
  Contains b (String c "") = false →
  Split (b +:+ String c t) (String c "") = b :: Split t (String c "").
Proof.
  intros H. rewrite Split_eq by done.
  rewrite Cut_app_no_first_byte by done.
  change (String c t) with (String c "" +:+ t).
  by rewrite Cut_sep_head, string_app_nil_r.
Qed.

Lemma Split_segments_no_byte (s : string) :
  Forall (λ segment, Contains segment (String c "") = false)
         (Split s (String c "")).
Proof.
  apply (Split_ind (String c "")
           (λ _ l, Forall (λ x, Contains x (String c "") = false) l)); [done | |].
  - intros s' Hc. constructor; [|constructor]. unfold Contains. by rewrite Hc.
  - intros s' b a Hc IH. constructor; [|done]. by eapply Cut_before_no_byte.
Qed.

Lemma Contains_app_byte (a b : string) :
  Contains (a +:+ b) (String c "") = false ↔
  Contains a (String c "") = false ∧ Contains b (String c "") = false.
Proof.
  induction a as [|x a IH]; simpl.
  - split; [by intros ? | by intros [_ ?]].
  - rewrite !Contains_cons, IH. tauto.
Qed.

Lemma Split_three (h o p : string) :
  Contains h (String c "") = false →
  Contains o (String c "") = false →
  Contains p (String c "") = false →
  Split (h +:+ String c "" +:+ o +:+ String c "" +:+ p) (String c "")
  = [h; o; p].
Proof.
  intros Hh Ho Hp. simpl.
  rewrite Split_app_byte by done.
  rewrite Split_app_byte by done.
  by rewrite Split_no_byte.
Qed.

End SplitOnByte.

Lemma Cut_double_slash_none (h o p : string) :
  Contains h "/" = false → Contains o "/" = false → Contains p "/" = false →
  o ≠ "" →
  Cut (h +:+ "/" +:+ o +:+ "/" +:+ p) "//" = None.
Proof.
  intros Hh Ho Hp Hne.
  rewrite Cut_app_no_first_byte by done.
  destruct o as [|x o]; [done |]. apply Contains_cons in Ho as [Hx Ho].
  simpl. apply Ascii.eqb_neq in Hx. rewrite Hx. simpl.
  rewrite Cut_app_no_first_byte by done.
  destruct p as [|y p]; [done |]. apply Contains_cons in Hp as [Hy Hp].
  simpl. apply Ascii.eqb_neq in Hy. rewrite Hy. simpl.
  by rewrite Cut_no_first_byte.
Qed.


(** ** The parser *)

Lemma Split_ssh_at (user rest : string) :
  Contains user "@" = false → Contains rest "@" = false →
  Split ("ssh://" +:+ user +:+ "@" +:+ rest) "@" = ["ssh://" +:+ user; rest].
Proof.
  intros Hu Hr.
  replace ("ssh://" +:+ user +:+ "@" +:+ rest)
    with (("ssh://" +:+ user) +:+ String "@" rest)
    by (by rewrite string_app_assoc).
  rewrite Split_app_byte by (by apply Contains_app_byte).
  by rewrite Split_no_byte.
Qed.

Lemma Split_https_slashes (rest : string) :
  Split ("https://" +:+ rest) "//" = "https:" :: Split rest "//".
Proof.
  rewrite Split_eq by done.
  change ("https://" +:+ rest) with ("https:" +:+ "//" +:+ rest).
  rewrite (Cut_app_no_first_byte "/" "/" "https:") by done.
  by rewrite Cut_sep_head.
Qed.

Lemma schemeRemainder_ssh (user h o p : string) :
  Contains user "@" = false → Contains h "@" = false →
  Contains o "@" = false → Contains p "@" = false →
  schemeRemainder
    ("ssh://" +:+ user +:+ "@" +:+ h +:+ "/" +:+ o +:+ "/" +:+ p +:+ ".git")
  = Returns (Some (h +:+ "/" +:+ o +:+ "/" +:+ p)).
Proof.
  intros Hu Hh Ho Hp.
  unfold schemeRemainder.
  replace (HasPrefix _ "ssh") with true by done.
  rewrite Split_ssh_at; [|done|].
  - simpl. do 2 f_equal.
    replace (h +:+ String "/" (o +:+ String "/" (p +:+ ".git")))
      with ((h +:+ "/" +:+ o +:+ "/" +:+ p) +:+ ".git").
    + apply TrimSuffix_app.
    + by rewrite !string_app_assoc.
  - repeat (apply Contains_app_byte; split; try done).
Qed.

Lemma schemeRemainder_https (h o p : string) :
  segment h → segment o → segment p →
  schemeRemainder ("https://" +:+ h +:+ "/" +:+ o +:+ "/" +:+ p)
  = Returns (Some (h +:+ "/" +:+ o +:+ "/" +:+ p)).
Proof.
  intros (_ & Hh) (Hne & Ho) (_ & Hp).
  unfold schemeRemainder.
  replace (HasPrefix _ "ssh") with false by done.
  replace (HasPrefix _ "https") with true by done.
  rewrite Split_https_slashes, Split_eq by done.
  by rewrite Cut_double_slash_none.
Qed.

Lemma NewRemoteUrl_segments (url h o p : string) :
  schemeRemainder url = Returns (Some (h +:+ "/" +:+ o +:+ "/" +:+ p)) →
  segment h → segment o → segment p →
  NewRemoteUrl url
  = Returns (Some {| Url := url; Domain := h; User := o; Repository := p |},
             None).
Proof.
  intros Hr (_ & Hh) (_ & Ho) (_ & Hp).
  unfold NewRemoteUrl. rewrite Hr. simpl.
  change (h +:+ String "/" (o +:+ String "/" p))
    with (h +:+ "/" +:+ o +:+ "/" +:+ p).
  by rewrite (Split_three "/").
Qed.

Lemma schemeRemainder_other (url : string) :
  schemeRemainder url = Returns None ↔
  HasPrefix url "ssh" = false ∧ HasPrefix url "https" = false.
Proof.
  unfold schemeRemainder.
  destruct (HasPrefix url "ssh"); [|destruct (HasPrefix url "https")].
  - destruct (at_index _ 1); simpl; split; try done; by intros [? _].
  - destruct (at_index _ 1); simpl; split; try done; by intros [_ ?].
  - by split.
Qed.

(** Fewer than three segments: the first missing one is indexed. *)
Lemma NewRemoteUrl_short_remainder (url otherScheme : string) :
  schemeRemainder url = Returns (Some otherScheme) →
  length (Split otherScheme "/") < 3 →
  NewRemoteUrl url
  = Panics (IndexOutOfRange (length (Split otherScheme "/"))
                            (length (Split otherScheme "/"))).
Proof.
  intros Hr Hlen. unfold NewRemoteUrl. rewrite Hr. simpl.
  destruct (Split_not_nil otherScheme "/") as [Hne|?]; [|done].
  destruct (Split otherScheme "/") as [|d [|u [|r rest]]]; simpl in *;
    try done; lia.
Qed.

(** C1: on a URL with two segments after the scheme the parser indexes the
    third segment of a two-element slice and panics; no error is returned. *)
Theorem NewRemoteUrl_two_segments_panics :
  NewRemoteUrl "https://gitlab.com/lab" = Panics (IndexOutOfRange 2 2).
Proof.
  rewrite (NewRemoteUrl_short_remainder _ "gitlab.com/lab");
    [reflexivity | reflexivity | vm_compute; lia].
Qed.




(** C8, as stated, fails: a URL of another scheme whose name starts with
    the letters [ssh] is not refused; it is parsed like an SSH URL. *)
Lemma NewRemoteUrl_accepts_other_scheme :
  ¬ (∀ url : string,
       HasPrefix url "ssh://" = false → HasPrefix url "https://" = false →
       NewRemoteUrl url = Returns (None, Some ("Invalid remote url: " +:+ url))).
Proof.
  intros H.
  specialize (H "sshfs://git@gitlab.com/acme/widgets" eq_refl eq_refl).
  vm_compute in H. discriminate H.
Qed.

(** C8, amended: a well-formed SSH URL [ssh://user@H/O/P.git], where the
    user and the three segments hold no [@], parses to the identity
    (H, O, P), the extension stripped; a well-formed HTTPS URL
    [https://H/O/P] parses to (H, O, P).  The unsupported-scheme error,
    which carries the URL, is returned exactly for the URLs that start with
    neither the letters [ssh] nor the letters [https]: a URL of another
    scheme that starts with these letters is not refused. *)
Theorem NewRemoteUrl_recognised_shapes (user h o p other : string) :
  segment h → segment o → segment p →
  let ssh := "ssh://" +:+ user +:+ "@" +:+ h +:+ "/" +:+ o +:+ "/" +:+ p
             +:+ ".git" in
  let https := "https://" +:+ h +:+ "/" +:+ o +:+ "/" +:+ p in
  (Contains user "@" = false → Contains h "@" = false →
   Contains o "@" = false → Contains p "@" = false →
   NewRemoteUrl ssh
   = Returns (Some {| Url := ssh; Domain := h; User := o; Repository := p |},
              None)) ∧
  NewRemoteUrl https
  = Returns (Some {| Url := https; Domain := h; User := o; Repository := p |},
             None) ∧
  (NewRemoteUrl other = Returns (None, Some ("Invalid remote url: " +:+ other))
   ↔ HasPrefix other "ssh" = false ∧ HasPrefix other "https" = false).
Proof.
  intros Hh Ho Hp ssh https. split; [|split].
  - intros Huser Hh' Ho' Hp'.
    apply NewRemoteUrl_segments; [by apply schemeRemainder_ssh | done..].
  - apply NewRemoteUrl_segments; [by apply schemeRemainder_https | done..].
  - split.
    + unfold NewRemoteUrl.
      destruct (schemeRemainder other) as [[otherScheme|]|pnc] eqn:Hr; simpl.
      * destruct (Split otherScheme "/") as [|d [|u [|r rest]]]; simpl; done.
      * intros _. by apply schemeRemainder_other.
      * done.
    + intros Hneither. unfold NewRemoteUrl.
      by rewrite (proj2 (schemeRemainder_other other) Hneither).
Qed.

Lemma NewRemoteUrl_recognised_shapes_witness :
  NewRemoteUrl "ssh://git@gitlab.com/lighttiger2505/lab.git"
  = Returns (Some {| Url := "ssh://git@gitlab.com/lighttiger2505/lab.git";
                     Domain := "gitlab.com"; User := "lighttiger2505";
                     Repository := "lab" |}, None) ∧
  NewRemoteUrl "https://gitlab.com/lighttiger2505/lab"
  = Returns (Some {| Url := "https://gitlab.com/lighttiger2505/lab";
                     Domain := "gitlab.com"; User := "lighttiger2505";
                     Repository := "lab" |}, None) ∧
  NewRemoteUrl "git@gitlab.com:lighttiger2505/lab.git"
  = Returns (None,
             Some "Invalid remote url: git@gitlab.com:lighttiger2505/lab.git").
Proof.
  destruct (NewRemoteUrl_recognised_shapes "git" "gitlab.com" "lighttiger2505"
              "lab" "git@gitlab.com:lighttiger2505/lab.git")
    as (Hssh & Hhttps & Hother); [split; [discriminate | reflexivity].. |].
  split; [|split].
  - apply Hssh; reflexivity.
  - apply Hhttps.
  - apply Hother. split; reflexivity.
Defined.

(** ** Discovery *)

Section Discovery.

Variable env : GitEnv.

Lemma GitRemotes_loop_identified (remotes : list string)
    (ids gitRemotes : list RemoteUrl) :
  identified env remotes ids →
  GitRemotes_loop env remotes gitRemotes = Returns (gitRemotes ++ ids, None).
Proof.
  intros H. revert gitRemotes.
  induction H as [|remote r remotes ids Hr _ IH]; intros gitRemotes; simpl.
  - by rewrite app_nil_r.
  - unfold remoteIdentity in Hr.
    destruct (remoteUrlText env remote) as [url|]; [|done]. simpl in *.
    rewrite Hr. simpl. by rewrite IH, <- app_assoc.
Qed.

Lemma GitRemotes_loop_returns (remotes : list string)
    (gitRemotes result : list RemoteUrl) :
  GitRemotes_loop env remotes gitRemotes = Returns (result, None) →
  ∃ ids, result = gitRemotes ++ ids ∧ identified env remotes ids.
Proof.
  revert gitRemotes.
  induction remotes as [|remote remotes IH]; intros gitRemotes; simpl.
  - intros [= <-]. exists []. by rewrite app_nil_r; split; [|constructor].
  - destruct (remoteUrlText env remote) as [url|] eqn:Hurl; [|done]. simpl.
    destruct (NewRemoteUrl url) as [[[r|] [e|]]|] eqn:Hparse; simpl; try done.
    intros (ids & -> & Hids)%IH. exists (r :: ids).
    split; [by rewrite <- app_assoc |].
    constructor; [|done]. unfold remoteIdentity. by rewrite Hurl.
Qed.

Lemma identified_elem (remotes : list string) (ids : list RemoteUrl)
    (remote : string) :
  identified env remotes ids → remote ∈ remotes →
  ∃ r, remoteIdentity env remote = Returns (Some r, None).
Proof.
  induction 1 as [|x r remotes ids Hr _ IH]; intros Hin.
  - by apply elem_of_nil in Hin.
  - apply elem_of_cons in Hin as [->|Hin]; [by exists r | by apply IH].
Qed.

Lemma GitRemotes_returns (gitRemotes : list RemoteUrl) :
  GitRemotes env = Returns (gitRemotes, None) →
  gitOutputs env "git" ["remote"] ≠ [] ∧
  ∃ ids, gitRemotes = zeroRemoteUrl :: ids ∧
         identified env (gitOutputs env "git" ["remote"]) ids.
Proof.
  unfold GitRemotes. case_bool_decide as Hlen; [done |].
  intros (ids & -> & Hids)%GitRemotes_loop_returns. split.
  - intros Hnil. by rewrite Hnil in Hlen.
  - by exists ids.
Qed.

Lemma GitRemotes_identified (ids : list RemoteUrl) :
  gitOutputs env "git" ["remote"] ≠ [] →
  identified env (gitOutputs env "git" ["remote"]) ids →
  GitRemotes env = Returns (zeroRemoteUrl :: ids, None).
Proof.
  intros Hne Hids. unfold GitRemotes. case_bool_decide as Hlen.
  - by apply length_zero_iff_nil in Hlen.
  - by rewrite (GitRemotes_loop_identified _ ids).
Qed.

Lemma FilterGitlabRemote_find (gitRemotes : list RemoteUrl) :
  FilterGitlabRemote gitRemotes =
  match List.find isGitlab gitRemotes with
  | Some gitLabRemote => (Some gitLabRemote, None)
  | None => (None, Some "Not a cloned repository from gitlab.")
  end.
Proof.
  unfold FilterGitlabRemote.
  induction gitRemotes as [|r rs IH]; simpl; [done |].
  by destruct (isGitlab r).
Qed.

Lemma FilterGitlabRemote_skip (r : RemoteUrl) (gitRemotes : list RemoteUrl) :
  isGitlab r = false →
  FilterGitlabRemote (r :: gitRemotes) = FilterGitlabRemote gitRemotes.
Proof. intros H. unfold FilterGitlabRemote. simpl. by rewrite H. Qed.

Lemma FilterGitlabRemote_first (r : RemoteUrl) (gitRemotes : list RemoteUrl) :
  isGitlab r = true → FilterGitlabRemote (r :: gitRemotes) = (Some r, None).
Proof. intros H. unfold FilterGitlabRemote. simpl. by rewrite H. Qed.

Lemma GitRemotes_loop_app (before rest : list string)
    (ids gitRemotes : list RemoteUrl) :
  identified env before ids →
  GitRemotes_loop env (before ++ rest) gitRemotes
  = GitRemotes_loop env rest (gitRemotes ++ ids).
Proof.
  intros H. revert gitRemotes.
  induction H as [|remote r before ids Hr _ IH]; intros gitRemotes; simpl.
  - by rewrite app_nil_r.
  - unfold remoteIdentity in Hr.
    destruct (remoteUrlText env remote) as [url|]; [|done]. simpl in *.
    rewrite Hr. simpl. by rewrite IH, <- app_assoc.
Qed.

Lemma FilterGitlabRemote_skip_all (before rest : list RemoteUrl) :
  Forall (λ r, isGitlab r = false) before →
  FilterGitlabRemote (before ++ rest) = FilterGitlabRemote rest.
Proof.
  induction 1 as [|r before Hr _ IH]; simpl; [done |].
  by rewrite FilterGitlabRemote_skip.
Qed.

Lemma discover_identified (ids : list RemoteUrl) :
  identified env (gitOutputs env "git" ["remote"]) ids → ids ≠ [] →
  discover env = Returns (FilterGitlabRemote ids).
Proof.
  intros Hids Hne. unfold discover.
  rewrite (GitRemotes_identified ids); [| |done].
  - simpl. by rewrite FilterGitlabRemote_skip.
  - intros Hnil. rewrite Hnil in Hids. by inversion Hids.
Qed.

End Discovery.

(** C6: with no remote configured, discovery returns the no-remote error.
    A remote whose URL does not resolve and parse makes the whole call
    fail, and when the parser refuses the first such URL the call returns
    the error that names it.  When every remote parses and no domain starts
    with [gitlab], the call returns the not-from-gitlab error; otherwise it
    returns the first identity, in the order of [git remote], whose domain
    starts with [gitlab]. *)
Theorem discover_outcomes (env : GitEnv) :
  let remotes := gitOutputs env "git" ["remote"] in
  (remotes = [] →
   discover env = Returns (None, Some "No remote setting in this repository")) ∧
  (∀ remote, remote ∈ remotes →
     (∀ r, remoteIdentity env remote ≠ Returns (Some r, None)) →
     failed (discover env)) ∧
  (∀ before remote after ids url err,
     remotes = before ++ remote :: after → identified env before ids →
     remoteUrlText env remote = Returns url →
     NewRemoteUrl url = Returns (None, Some err) →
     discover env
     = Returns (None, Some ("Failed serialize remote url. " +:+ url))) ∧
  (∀ ids, remotes ≠ [] → identified env remotes ids →
     Forall (λ r, isGitlab r = false) ids →
     discover env = Returns (None, Some "Not a cloned repository from gitlab.")) ∧
  (∀ ids before r after,
     identified env remotes ids → ids = before ++ r :: after →
     Forall (λ x, isGitlab x = false) before → isGitlab r = true →
     discover env = Returns (Some r, None)).
Proof.
  intros remotes. repeat split.
  - intros Hnil. unfold discover, GitRemotes. fold remotes. by rewrite Hnil.
  - intros remote Hin Hbad. unfold discover.
    destruct (GitRemotes env) as [[gitRemotes [err|]]|p] eqn:Hg; simpl; try done.
    apply GitRemotes_returns in Hg as (_ & ids & _ & Hids).
    destruct (identified_elem env _ _ _ Hids Hin) as [r Hr].
    by destruct (Hbad r).
  - intros before remote after ids url err Hsplit Hids Hurl Hparse.
    unfold discover, GitRemotes. fold remotes.
    case_bool_decide as Hlen.
    { rewrite Hsplit, length_app in Hlen. simpl in Hlen. lia. }
    rewrite Hsplit, (GitRemotes_loop_app env before _ ids) by done.
    simpl. rewrite Hurl. simpl. by rewrite Hparse.
  - intros ids Hne Hids Hall.
    rewrite (discover_identified env ids Hids).
    + rewrite <- (app_nil_r ids), FilterGitlabRemote_skip_all; done.
    + intros ->. inversion Hids as [Hnil|]. by rewrite <- Hnil in Hne.
  - intros ids before r after Hids -> Hbefore Hr.
    rewrite (discover_identified env _ Hids) by (by destruct before).
    by rewrite FilterGitlabRemote_skip_all, FilterGitlabRemote_first.
Qed.

Lemma discover_outcomes_witness :
  discover noRemote
  = Returns (None, Some "No remote setting in this repository") ∧
  failed (discover scpStyle) ∧
  discover scpStyle
  = Returns (None, Some ("Failed serialize remote url. "
                         +:+ "git@gitlab.com:lighttiger2505/lab.git")) ∧
  discover hubOnly
  = Returns (None, Some "Not a cloned repository from gitlab.") ∧
  discover threeRemotes = Returns (Some labUrl, None).
Proof.
  split; [|split; [|split; [|split]]].
  - apply (discover_outcomes noRemote). reflexivity.
  - apply (discover_outcomes scpStyle) with (remote := "upstream").
    + apply elem_of_cons. right. apply elem_of_cons. by left.
    + intros r. vm_compute. discriminate.
  - apply (discover_outcomes scpStyle)
      with (before := ["origin"]) (remote := "upstream") (after := [])
           (ids := [labUrl])
           (err := "Invalid remote url: git@gitlab.com:lighttiger2505/lab.git").
    + reflexivity.
    + repeat constructor.
    + reflexivity.
    + reflexivity.
  - apply (discover_outcomes hubOnly) with (ids := [hubUrl]).
    + vm_compute. discriminate.
    + repeat constructor.
    + repeat constructor.
  - apply (discover_outcomes threeRemotes)
      with (ids := [hubUrl; labUrl; widgetsUrl]) (before := [hubUrl])
           (after := [widgetsUrl]).
    + repeat constructor.
    + reflexivity.
    + repeat constructor.
    + reflexivity.
Defined.

(** C10: when [GitRemotes] succeeds, some remote is configured and the
    slice holds one element more than there are remotes: the zero value
    that [make] put there, then the parsed identities in the order of
    [git remote].  The zero value has an empty domain, which does not start
    with [gitlab]: that alone keeps it out of the selection, for a first
    element that did match would be the one selected. *)
Theorem GitRemotes_leading_zero_value (env : GitEnv)
    (gitRemotes : list RemoteUrl) :
  GitRemotes env = Returns (gitRemotes, None) →
  let remotes := gitOutputs env "git" ["remote"] in
  remotes ≠ [] ∧
  length gitRemotes = S (length remotes) ∧
  ∃ ids, gitRemotes = zeroRemoteUrl :: ids ∧
         identified env remotes ids ∧
         isGitlab zeroRemoteUrl = false ∧
         FilterGitlabRemote gitRemotes = FilterGitlabRemote ids ∧
         (∀ r, isGitlab r = true →
               FilterGitlabRemote (r :: ids) = (Some r, None)).
Proof.
  intros (Hne & ids & -> & Hids)%GitRemotes_returns remotes.
  split; [done |]. split.
  - simpl. f_equal. symmetry. by eapply Forall2_length.
  - exists ids. repeat split; try done.
    intros r Hr. by apply FilterGitlabRemote_first.
Qed.

Lemma GitRemotes_leading_zero_value_witness :
  gitOutputs threeRemotes "git" ["remote"] ≠ [] ∧
  length [zeroRemoteUrl; hubUrl; labUrl; widgetsUrl]
  = S (length (gitOutputs threeRemotes "git" ["remote"])) ∧
  ∃ ids, [zeroRemoteUrl; hubUrl; labUrl; widgetsUrl] = zeroRemoteUrl :: ids ∧
         identified threeRemotes (gitOutputs threeRemotes "git" ["remote"]) ids ∧
         isGitlab zeroRemoteUrl = false ∧
         FilterGitlabRemote [zeroRemoteUrl; hubUrl; labUrl; widgetsUrl]
         = FilterGitlabRemote ids ∧
         (∀ r, isGitlab r = true →
               FilterGitlabRemote (r :: ids) = (Some r, None)).
Proof.
  apply (GitRemotes_leading_zero_value threeRemotes). reflexivity.
Defined.

(** ** White space after a URL *)





(** ** The identifier *)

Lemma digit_isDigit (c : ascii) :
  Strconv.digit c
  = if isDigit c then Some (Z.of_N (N_of_ascii c) - 48)%Z else None.
Proof. by destruct c as [[] [] [] [] [] [] [] []]. Qed.

Lemma digits_denotes (s : string) (n : Z) :
  Strconv.digits s n
  = if allDigits s
    then Some (n * 10 ^ Z.of_nat (String.length s) + denotes s)%Z
    else None.
Proof.
  revert n. induction s as [|c s IH]; intros n; simpl.
  - f_equal. lia.
  - rewrite digit_isDigit. destruct (isDigit c); simpl; [|done].
    rewrite IH. destruct (allDigits s); [|done]. f_equal.
    rewrite Nat2Z.inj_succ, Z.pow_succ_r by lia. ring.
Qed.

Lemma digits_unsignedLiteral (s : string) :
  match s with
  | "" => None
  | _ => Strconv.digits s 0
  end
  = if unsignedLiteral s then Some (denotes s) else None.
Proof.
  destruct s as [|c s]; [done |].
  rewrite digits_denotes. unfold unsignedLiteral.
  change (negb (String.eqb (String c s) "")) with true. rewrite andb_true_l.
  destruct (allDigits (String c s)); [|done]. f_equal; lia.
Qed.

Lemma Atoi_integerLiteral (s : string) :
  Strconv.Atoi s =
  match integerLiteral s with
  | Some n =>
      if bool_decide (Strconv.minInt ≤ n ≤ Strconv.maxInt)%Z then Some n
      else None
  | None => None
  end.
Proof.
  assert (Hplain : ∀ body neg,
    match body with
    | "" => None
    | _ =>
        match Strconv.digits body 0 with
        | Some un =>
            let n := if neg : bool then (- un)%Z else un in
            if bool_decide (Strconv.minInt ≤ n ≤ Strconv.maxInt)%Z
            then Some n else None
        | None => None
        end
    end
    = match (if unsignedLiteral body
             then Some (if neg then - denotes body else denotes body)%Z
             else None) with
      | Some n =>
          if bool_decide (Strconv.minInt ≤ n ≤ Strconv.maxInt)%Z then Some n
          else None
      | None => None
      end).
  { intros body neg. pose proof (digits_unsignedLiteral body) as H.
    destruct body as [|c body]; [done |].
    rewrite H. by destruct (unsignedLiteral (String c body)). }
  destruct s as [|c r]; [done |].
  unfold Strconv.Atoi, integerLiteral.
  destruct c as [[] [] [] [] [] [] [] []];
    first [ exact (Hplain r false) | exact (Hplain r true)
          | match goal with
            | |- context [Strconv.digits (String ?c r) 0%Z] =>
                exact (Hplain (String c r) false)
            end ].
Qed.


(** C5, as stated, fails: a negative literal is not refused. *)
Lemma validMergeRequestIID_accepts_negative :
  ¬ (∀ (arg0 : string) (rest : list string),
       unsignedLiteral arg0 = false →
       ∃ msg, (validMergeRequestIID (arg0 :: rest)).2 = Some msg).
Proof.
  intros H. destruct (H "-5" [] eq_refl) as [msg Hmsg]. discriminate Hmsg.
Qed.

(** C5, amended: only the first argument is read.  Without arguments the
    identifier is 0 and there is no error.  A first token that is an
    integer literal (an optional sign, then decimal digits) whose value
    fits [int] is the identifier, negative ones included; every other first
    token is refused with the error that names it.  So [42] gives 42, [-5]
    gives -5, and [abc] is refused. *)
Theorem validMergeRequestIID_first_token (arg0 : string) (rest : list string) :
  validMergeRequestIID [] = (0%Z, None) ∧
  validMergeRequestIID (arg0 :: rest) = validMergeRequestIID [arg0] ∧
  validMergeRequestIID [arg0]
  = match integerLiteral arg0 with
    | Some iid =>
        if bool_decide (- 2 ^ 63 ≤ iid ≤ 2 ^ 63 - 1)%Z then (iid, None)
        else (0%Z, Some ("Invalid Issue IID. IID: " +:+ arg0))
    | None => (0%Z, Some ("Invalid Issue IID. IID: " +:+ arg0))
    end ∧
  validMergeRequestIID ["42"] = (42%Z, None) ∧
  validMergeRequestIID ["-5"] = ((-5)%Z, None) ∧
  validMergeRequestIID ["abc"] = (0%Z, Some "Invalid Issue IID. IID: abc").
Proof.
  repeat split. unfold validMergeRequestIID.
  rewrite Atoi_integerLiteral.
  destruct (integerLiteral arg0) as [iid|]; [|done].
  change (- 2 ^ 63)%Z with Strconv.minInt.
  change (2 ^ 63 - 1)%Z with Strconv.maxInt.
  by case_bool_decide.
Qed.

(** ** State and scope *)

(** C7: the state is the value of the first shorthand flag set, in the order
    opened, closed, merged; without one it is the state field, which holds
    the state given on the command line, and [all] when none was given.  The
    scope is resolved in the same way from created-by-me, then
    assigned-to-me, then the scope field.  With the opened flag and the state
    [closed], the state is [opened]. *)
Theorem GetState_GetScope_precedence (l : ListMergeRequestOption)
    (num : option Z) (state scope orderby sort : option string)
    (opened closed merged createdMe assignedMe allProject : bool) :
  GetState l
  = firstMatch [(Opened l, "opened"); (Closed l, "closed");
                (Merged l, "merged")] (State l) ∧
  GetScope l
  = firstMatch [(CreatedMe l, "created-by-me");
                (AssignedMe l, "assigned-to-me")] (Scope l) ∧
  (let parsed := parsedListOption num state scope orderby sort opened closed
                   merged createdMe assignedMe allProject in
   State parsed = match state with Some text => text | None => "all" end ∧
   Scope parsed = match scope with Some text => text | None => "all" end ∧
   Opened parsed = opened ∧ Closed parsed = closed ∧ Merged parsed = merged ∧
   CreatedMe parsed = createdMe ∧ AssignedMe parsed = assignedMe) ∧
  GetState (parsedListOption num (Some "closed") scope orderby sort true
              closed merged createdMe assignedMe allProject) = "opened".
Proof. by repeat split. Qed.

(** ** Selection of the method *)

Lemma hasCreateUpdateOption_hasContent (opt : CreateUpdateMergeRequestOption) :
  hasCreateUpdateOption opt = hasContent opt.
Proof.
  unfold hasCreateUpdateOption, hasContent.
  destruct (String.eqb_spec (Title opt) ""), (String.eqb_spec (Message opt) ""),
    (String.eqb_spec (StateEvent opt) ""), (Z.eqb_spec (AssigneeID opt) 0);
    simpl; symmetry;
    first [ apply bool_decide_eq_true_2; tauto
          | apply bool_decide_eq_false_2; tauto ].
Qed.

(** C3: when the provider hands out both clients and the first argument,
    if any, is an identifier, [getMethod] returns the method of the
    operation that the fixed precedence selects: with an identifier,
    update-via-editor on the edit flag, else update on some content field,
    else show; without one, create-via-editor on the edit flag, else create
    on a title, else list-all on the all-project flag, else the project's
    list.  The method carries the identifier exactly when there is one. *)
Theorem getMethod_precedence
    {MergeRequestClient RepositoryClient RemoteInfo EditFunc : Type}
    (RepositoryFullName : RemoteInfo → string)
    (c : @MergeRequestCommand MergeRequestClient RepositoryClient RemoteInfo
           EditFunc)
    (opt : MergeRequestCommandOption) (args : list string)
    (remote : RemoteInfo) (client : MergeRequestClient)
    (repositoryClient : RepositoryClient) (iid : Z) :
  GetMergeRequestClient (provider c) remote = (client, None) →
  GetRepositoryClient (provider c) remote = (repositoryClient, None) →
  validMergeRequestIID args = (iid, None) →
  ∃ m, getMethod RepositoryFullName c opt args remote = (Some m, None) ∧
       operationOf m
       = selectOperation (bool_decide (args ≠ []))
           (Edit (CreateUpdateOption opt))
           (hasContent (CreateUpdateOption opt))
           (bool_decide (Title (CreateUpdateOption opt) ≠ ""))
           (AllProject (ListOption opt)) ∧
       identifierOf m = (if bool_decide (args ≠ []) then Some iid else None).
Proof.
  intros Hclient Hrepo Hiid. unfold getMethod.
  rewrite Hclient, Hrepo, Hiid, hasCreateUpdateOption_hasContent.
  destruct args as [|arg0 rest]; simpl.
  - destruct (Edit (CreateUpdateOption opt)); [by eexists |].
    destruct (String.eqb_spec (Title (CreateUpdateOption opt)) "") as [Ht|Ht];
      simpl.
    + rewrite bool_decide_eq_false_2 by tauto.
      destruct (AllProject (ListOption opt)); by eexists.
    + rewrite bool_decide_eq_true_2 by done. by eexists.
  - destruct (Edit (CreateUpdateOption opt)); [by eexists |].
    destruct (hasContent (CreateUpdateOption opt)); by eexists.
Qed.

Lemma getMethod_precedence_witness :
  ∃ m, getMethod (λ _ : unit, "lighttiger2505/lab") unitCommand
         editWithTitle ["7"] ()
       = (Some m, None) ∧
       operationOf m = UpdateViaEditor ∧ identifierOf m = Some 7%Z.
Proof.
  apply (getMethod_precedence (λ _ : unit, "lighttiger2505/lab") unitCommand
           editWithTitle ["7"] () () () 7%Z);
    reflexivity.
Defined.

(** ** The editor flow *)

Section EditorFlowFacts.

Context {EditFunc : Type}.
Variable NewEditor :
  string → string → string → EditFunc → gset string →
  (option Editor * option error) * gset string.
Variable EditTitleAndDescription :
  option Editor → gset string →
  outcome (string * string * option error) * gset string.

(** After a completed edit the deferred call has removed the file. *)
Lemma editIssueTitleAndDesc_completed (template : string) (edit : EditFunc)
    (files files1 files2 : gset string) (editor : Editor)
    (title description : string) :
  NewEditor "ISSUE" "issue" template edit files = ((Some editor, None), files1) →
  EditTitleAndDescription (Some editor) files1
  = (Returns (title, description, None), files2) →
  editIssueTitleAndDesc NewEditor EditTitleAndDescription template edit files
  = (Returns (title, description, None), files2 ∖ {[ File editor ]}) ∧
  File editor ∉ files2 ∖ {[ File editor ]}.
Proof.
  intros Hnew Hedit. unfold editIssueTitleAndDesc.
  rewrite Hnew, Hedit. split; [done |].
  apply not_elem_of_difference. right. by apply elem_of_singleton.
Qed.

(** After a failed edit no call was deferred: the files are those the edit
    left behind. *)
Lemma editIssueTitleAndDesc_edit_error (template : string) (edit : EditFunc)
    (files files1 files2 : gset string) (editor : option Editor)
    (title description : string) (err : error) :
  NewEditor "ISSUE" "issue" template edit files = ((editor, None), files1) →
  EditTitleAndDescription editor files1
  = (Returns (title, description, Some err), files2) →
  editIssueTitleAndDesc NewEditor EditTitleAndDescription template edit files
  = (Returns ("", "", Some err), files2).
Proof.
  intros Hnew Hedit. unfold editIssueTitleAndDesc. by rewrite Hnew, Hedit.
Qed.

End EditorFlowFacts.

(** C2: when the edit fails after the template file was written, the flow
    returns the error and the file is still there; after a completed edit
    of the same template it is gone. *)
Theorem editIssueTitleAndDesc_keeps_file_on_edit_error :
  (editIssueTitleAndDesc newIssueEditor failingEdit "" () ∅).1
  = Returns ("", "", Some "exit status 1") ∧
  File issueEditor ∈ (editIssueTitleAndDesc newIssueEditor failingEdit "" () ∅).2 ∧
  File issueEditor ∉ (editIssueTitleAndDesc newIssueEditor completedEdit "" () ∅).2.
Proof.
  rewrite (editIssueTitleAndDesc_edit_error newIssueEditor failingEdit
             "" () ∅ ∅ ({[ File issueEditor ]} ∪ ∅) (Some issueEditor) "" ""
             "exit status 1") by done.
  destruct (editIssueTitleAndDesc_completed newIssueEditor completedEdit
              "" () ∅ ∅ ({[ File issueEditor ]} ∪ ∅) issueEditor "Fix bug" ""
              eq_refl eq_refl) as [-> Hgone].
  simpl. split; [done |]. split; [|done].
  apply elem_of_union. left. by apply elem_of_singleton.
Qed.

(** ** From the working copy to the method *)

Example widgets_create :
  discover widgetsOnly = Returns (Some widgetsUrl, None) ∧
  ∃ m, getMethod (λ _ : unit, "acme/widgets") unitCommand titleOnly [] ()
       = (Some m, None) ∧ operationOf m = Create.
Proof. split; [done | by eexists]. Qed.

(** * Further properties of the code *)

(** ** More on strings *)

Lemma HasPrefix_spec (s sep : string) :
  HasPrefix s sep = true → s = sep +:+ sliceFrom s (String.length sep).
Proof.
  revert s. induction sep as [|p sep IH]; intros [|c s]; simpl; try done.
  intros [Hc Hs]%andb_true_iff. apply Ascii.eqb_eq in Hc as ->.
  f_equal. by apply IH.
Qed.

Lemma Cut_spec (s sep before after : string) :
  Cut s sep = Some (before, after) → s = before +:+ sep +:+ after.
Proof.
  revert before after. induction s as [|c s IH]; intros before after;
    rewrite Cut_eq.
  - destruct (HasPrefix "" sep) eqn:Hp; [|done].
    intros [= <- <-]. by apply HasPrefix_spec.
  - destruct (HasPrefix (String c s) sep) eqn:Hp.
    + intros [= <- <-]. by apply HasPrefix_spec.
    + destruct (Cut s sep) as [[b a]|] eqn:Hc; [|done].
      intros [= <- <-]. simpl. f_equal. by apply IH.
Qed.

Lemma HasPrefix_app_long (s t sep : string) :
  String.length sep ≤ String.length s →
  HasPrefix (s +:+ t) sep = HasPrefix s sep.
Proof.
  revert s. induction sep as [|p sep IH]; intros [|c s] Hlen; simpl in *.
  - apply HasPrefix_nil.
  - done.
  - lia.
  - f_equal. apply IH. lia.
Qed.

Lemma sliceFrom_app_long (s t : string) (n : nat) :
  n ≤ String.length s → sliceFrom (s +:+ t) n = sliceFrom s n +:+ t.
Proof.
  revert s. induction n as [|n IH]; intros [|c s] Hlen; simpl in *;
    try done; try lia.
  - by destruct t.
  - apply IH. lia.
Qed.

(** The first instance of the separator stays the first when text follows. *)
Lemma Cut_app_some (s t sep before after : string) :
  Cut s sep = Some (before, after) →
  Cut (s +:+ t) sep = Some (before, after +:+ t).
Proof.
  revert before after. induction s as [|c s IH]; intros before after Hcut.
  - pose proof (Cut_spec _ _ _ _ Hcut) as Hs.
    destruct before; [|done]. destruct sep; [|done]. destruct after; [|done].
    simpl. rewrite Cut_eq, HasPrefix_nil. by destruct t.
  - assert (Hlen : String.length sep ≤ String.length (String c s)).
    { apply Cut_spec in Hcut. rewrite Hcut, !string_length_app. lia. }
    rewrite Cut_eq in Hcut.
    change (String c s +:+ t) with (String c (s +:+ t)).
    rewrite Cut_eq. change (String c (s +:+ t)) with (String c s +:+ t).
    rewrite HasPrefix_app_long, sliceFrom_app_long by done.
    destruct (HasPrefix (String c s) sep).
    + by injection Hcut as <- <-.
    + destruct (Cut s sep) as [[b a]|] eqn:Hc; [|done].
      injection Hcut as <- <-. by rewrite (IH _ _ eq_refl).
Qed.

Section SplitOnByteMore.

Variable c : ascii.

(** Splitting distributes over an instance of the separating byte. *)
Lemma Split_app_sep (a b : string) :
  Split (a +:+ String c b) (String c "")
  = Split a (String c "") ++ Split b (String c "").
Proof.
  apply (Split_ind (String c "")
           (λ a l, Split (a +:+ String c b) (String c "")
                   = l ++ Split b (String c ""))); [done | |].
  - intros s Hs. apply Split_app_byte. unfold Contains. by rewrite Hs.
  - intros s before after Hcut IH.
    rewrite Split_eq by done.
    by rewrite (Cut_app_some _ (String c b) _ _ _ Hcut), IH.
Qed.

Lemma Contains_sliceTo (s : string) (n : nat) :
  Contains s (String c "") = false →
  Contains (sliceTo s n) (String c "") = false.
Proof.
  revert n. induction s as [|x s IH]; intros [|n]; simpl; try done.
  intros [Hx Hs]%Contains_cons. apply Contains_cons. split; [done |].
  by apply IH.
Qed.

End SplitOnByteMore.

Lemma allSpace_app (a b : string) :
  allSpace (a +:+ b) = allSpace a && allSpace b.
Proof.
  induction a as [|x a IH]; simpl; [done |].
  by rewrite IH, andb_assoc.
Qed.

Lemma allSpace_isBlank (s : string) : allSpace s = true → isBlank s = true.
Proof.
  induction s as [|x s IH]; simpl; [done |].
  intros [Hx Hs]%andb_true_iff. rewrite Hx. by apply IH.
Qed.

Lemma allSpace_lines_blank (s : string) :
  allSpace s = true → Forall (λ line, isBlank line = true) (Split s newline).
Proof.
  unfold newline.
  apply (Split_ind (String "010" "")
           (λ s l, allSpace s = true → Forall (λ line, isBlank line = true) l));
    [done | |].
  - intros s' _ Hs. constructor; [by apply allSpace_isBlank | constructor].
  - intros s' before after Hcut IH Hs.
    apply Cut_spec in Hcut. subst s'.
    rewrite !allSpace_app in Hs.
    apply andb_true_iff in Hs as [Hb [_ Ha]%andb_true_iff].
    constructor; [by apply allSpace_isBlank | by apply IH].
Qed.

Lemma filter_blank_nil (lines : list string) :
  Forall (λ line, isBlank line = true) lines →
  List.filter (λ line, negb (isBlank line)) lines = [].
Proof.
  induction 1 as [|line lines Hl _ IH]; simpl; [done |]. by rewrite Hl.
Qed.

(** *** Suffixes *)

Lemma string_eqb_length (s t : string) :
  String.length s ≠ String.length t → String.eqb s t = false.
Proof.
  intros Hlen. destruct (String.eqb_spec s t) as [->|]; [done | done].
Qed.

Lemma HasSuffix_short (s suffix : string) :
  String.length s < String.length suffix → HasSuffix s suffix = false.
Proof.
  intros Hlen. unfold HasSuffix. by rewrite bool_decide_eq_false_2 by lia.
Qed.

Lemma HasSuffix_cons (x : ascii) (t suffix : string) :
  HasSuffix (String x t) suffix
  = if bool_decide (String.length suffix ≤ String.length t)
    then HasSuffix t suffix
    else String.eqb (String x t) suffix.
Proof.
  unfold HasSuffix. simpl String.length.
  destruct (decide (String.length suffix ≤ String.length t)) as [Hlen|Hlen].
  - rewrite !bool_decide_eq_true_2 by lia.
    replace (S (String.length t) - String.length suffix)
      with (S (String.length t - String.length suffix)) by lia.
    done.
  - rewrite (bool_decide_eq_false_2 (String.length suffix ≤ String.length t))
      by done.
    case_bool_decide as Hlen'.
    + replace (S (String.length t) - String.length suffix) with 0 by lia.
      done.
    + symmetry. apply string_eqb_length. simpl. lia.
Qed.

Lemma sliceTo_app_ge (a b : string) (k : nat) :
  sliceTo (a +:+ b) (String.length a + k) = a +:+ sliceTo b k.
Proof. induction a as [|x a IH]; simpl; [done | by rewrite IH]. Qed.

Section SuffixAfterByte.

Variable c : ascii.

Lemma Contains_byte_in_app (b a : string) :
  Contains (b +:+ String c a) (String c "") = true.
Proof.
  destruct (Contains (b +:+ String c a) (String c "")) eqn:H; [done |].
  apply Contains_app_byte in H as [_ H]. by apply Contains_cons in H as [? _].
Qed.

(** A suffix without the byte lies after the last instance of the byte. *)
Lemma HasSuffix_after_byte (b a suffix : string) :
  Contains suffix (String c "") = false →
  HasSuffix (b +:+ String c a) suffix = HasSuffix a suffix.
Proof.
  intros Hsuf.
  assert (Hno : ∀ s, Contains s (String c "") = true →
                     String.eqb s suffix = false).
  { intros s Hs. destruct (String.eqb_spec s suffix) as [->|]; [|done].
    by rewrite Hsuf in Hs. }
  induction b as [|x b IH]; simpl; rewrite HasSuffix_cons;
    case_bool_decide as Hlen; try done.
  - rewrite HasSuffix_short by lia.
    apply Hno. apply (Contains_byte_in_app "" a).
  - rewrite HasSuffix_short.
    + apply Hno. apply (Contains_byte_in_app (String x b) a).
    + rewrite string_length_app in Hlen. simpl in Hlen. lia.
Qed.

Lemma TrimSuffix_after_byte (b a suffix : string) :
  Contains suffix (String c "") = false →
  TrimSuffix (b +:+ String c a) suffix = b +:+ String c (TrimSuffix a suffix).
Proof.
  intros Hsuf. unfold TrimSuffix. rewrite HasSuffix_after_byte by done.
  destruct (HasSuffix a suffix) eqn:Ha; [|done].
  assert (String.length suffix ≤ String.length a) as Hlen.
  { unfold HasSuffix in Ha. apply andb_true_iff in Ha as [Ha _].
    by apply bool_decide_eq_true in Ha. }
  rewrite string_length_app. simpl String.length.
  replace (String.length b + S (String.length a) - String.length suffix)
    with (String.length b + S (String.length a - String.length suffix)) by lia.
  by rewrite sliceTo_app_ge.
Qed.

Lemma Contains_TrimSuffix (s suffix : string) :
  Contains s (String c "") = false →
  Contains (TrimSuffix s suffix) (String c "") = false.
Proof.
  intros Hs. unfold TrimSuffix. destruct (HasSuffix s suffix); [|done].
  by apply Contains_sliceTo.
Qed.

End SuffixAfterByte.

(** ** More on the parser *)

Lemma schemeRemainder_ssh_at (junk rest : string) :
  Contains junk "@" = false → Contains rest "@" = false →
  schemeRemainder ("ssh" +:+ junk +:+ "@" +:+ rest)
  = Returns (Some (TrimSuffix rest ".git")).
Proof.
  intros Hjunk Hrest. unfold schemeRemainder.
  rewrite (HasPrefix_app "ssh").
  replace ("ssh" +:+ junk +:+ "@" +:+ rest)
    with (("ssh" +:+ junk) +:+ String "@" rest)
    by (by rewrite string_app_assoc).
  rewrite Split_app_byte by (by apply Contains_app_byte).
  by rewrite Split_no_byte.
Qed.

(** X1: the address that [ConcatUrl] builds from an identity with three
    well-formed segments parses back to the same domain, user and
    repository. *)
Theorem ConcatUrl_parses_back (r : RemoteUrl) :
  segment (Domain r) → segment (User r) → segment (Repository r) →
  NewRemoteUrl (ConcatUrl r)
  = Returns (Some {| Url := ConcatUrl r; Domain := Domain r; User := User r;
                     Repository := Repository r |}, None).
Proof.
  intros Hd Hu Hr. unfold ConcatUrl. simpl Join.
  apply NewRemoteUrl_segments; [by apply schemeRemainder_https | done..].
Qed.

Lemma ConcatUrl_parses_back_witness :
  NewRemoteUrl (ConcatUrl labUrl)
  = Returns (Some {| Url := "https://gitlab.com/lighttiger2505/lab";
                     Domain := "gitlab.com"; User := "lighttiger2505";
                     Repository := "lab" |}, None).
Proof.
  apply (ConcatUrl_parses_back labUrl); split; first [discriminate | reflexivity].
Defined.

(** X2: parsing a well-formed HTTPS URL and concatenating the identity gives
    the URL back; from a well-formed SSH URL it gives the HTTPS URL of the
    same host, owner and project, without user and extension. *)
Theorem ConcatUrl_of_parsed (user h o p : string) :
  segment h → segment o → segment p →
  let https := "https://" +:+ h +:+ "/" +:+ o +:+ "/" +:+ p in
  let ssh := "ssh://" +:+ user +:+ "@" +:+ h +:+ "/" +:+ o +:+ "/" +:+ p
             +:+ ".git" in
  (∃ r, NewRemoteUrl https = Returns (Some r, None) ∧ ConcatUrl r = https) ∧
  (Contains user "@" = false → Contains h "@" = false →
   Contains o "@" = false → Contains p "@" = false →
   ∃ r, NewRemoteUrl ssh = Returns (Some r, None) ∧ ConcatUrl r = https).
Proof.
  intros Hh Ho Hp https ssh. split.
  - eexists. split.
    + apply NewRemoteUrl_segments; [by apply schemeRemainder_https | done..].
    + reflexivity.
  - intros Hu Hh' Ho' Hp'. eexists. split.
    + apply NewRemoteUrl_segments; [by apply schemeRemainder_ssh | done..].
    + reflexivity.
Qed.

Lemma ConcatUrl_of_parsed_witness :
  (∃ r, NewRemoteUrl "https://gitlab.com/lighttiger2505/lab"
        = Returns (Some r, None) ∧
        ConcatUrl r = "https://gitlab.com/lighttiger2505/lab") ∧
  (∃ r, NewRemoteUrl "ssh://git@gitlab.com/lighttiger2505/lab.git"
        = Returns (Some r, None) ∧
        ConcatUrl r = "https://gitlab.com/lighttiger2505/lab").
Proof.
  destruct (ConcatUrl_of_parsed "git" "gitlab.com" "lighttiger2505" "lab")
    as [Hhttps Hssh]; [split; [discriminate | reflexivity].. |].
  split; [exact Hhttps | apply Hssh; reflexivity].
Defined.

(** X3: on the SSH branch the extension is optional and nothing before the
    [@] is looked at: for any text after [ssh] without an [@], and three
    segments without [@] and slash, the identity is the first two segments
    and the third with one trailing [.git] removed, if it has one. *)
Theorem NewRemoteUrl_ssh_extension_optional (junk h o p : string) :
  Contains junk "@" = false →
  Contains h "@" = false → Contains o "@" = false → Contains p "@" = false →
  Contains h "/" = false → Contains o "/" = false → Contains p "/" = false →
  let url := "ssh" +:+ junk +:+ "@" +:+ h +:+ "/" +:+ o +:+ "/" +:+ p in
  NewRemoteUrl url
  = Returns (Some {| Url := url; Domain := h; User := o;
                     Repository := TrimSuffix p ".git" |}, None).
Proof.
  intros Hjunk Hh Ho Hp Hh' Ho' Hp' url. unfold NewRemoteUrl, url.
  rewrite schemeRemainder_ssh_at;
    [|done | by repeat (apply Contains_app_byte; split; try done)].
  simpl.
  rewrite (TrimSuffix_after_byte "/" h) by done.
  rewrite (TrimSuffix_after_byte "/" o) by done.
  change (h +:+ String "/" (o +:+ String "/" (TrimSuffix p ".git")))
    with (h +:+ "/" +:+ o +:+ "/" +:+ TrimSuffix p ".git").
  by rewrite (Split_three "/") by (by try apply Contains_TrimSuffix).
Qed.

Lemma NewRemoteUrl_ssh_extension_optional_witness :
  NewRemoteUrl "ssh+git:git@gitlab.com/lighttiger2505/lab"
  = Returns (Some {| Url := "ssh+git:git@gitlab.com/lighttiger2505/lab";
                     Domain := "gitlab.com"; User := "lighttiger2505";
                     Repository := "lab" |}, None).
Proof.
  apply (NewRemoteUrl_ssh_extension_optional "+git:git" "gitlab.com"
           "lighttiger2505" "lab"); reflexivity.
Defined.

(** X4: what follows the third segment of an HTTPS URL is ignored: with
    three well-formed segments and a tail that does not start with a slash
    and holds no double slash, the identity is that of the three
    segments. *)
Theorem NewRemoteUrl_ignores_tail (h o p tail : string) :
  segment h → segment o → segment p →
  HasPrefix tail "/" = false → Contains tail "//" = false →
  let url := "https://" +:+ h +:+ "/" +:+ o +:+ "/" +:+ p +:+ "/" +:+ tail in
  NewRemoteUrl url
  = Returns (Some {| Url := url; Domain := h; User := o; Repository := p |},
             None).
Proof.
  intros (_ & Hh) (Hne & Ho) (Hnep & Hp) Htail Htail2 url.
  assert (Hrem : schemeRemainder url
                 = Returns (Some (h +:+ "/" +:+ o +:+ "/" +:+ p +:+ "/" +:+ tail))).
  { unfold schemeRemainder, url.
    replace (HasPrefix _ "ssh") with false by done.
    replace (HasPrefix _ "https") with true by done.
    rewrite Split_https_slashes, Split_eq by done.
    rewrite Cut_app_no_first_byte by done.
    destruct o as [|x o]; [done |]. apply Contains_cons in Ho as [Hx Ho].
    simpl. apply Ascii.eqb_neq in Hx. rewrite Hx. simpl.
    rewrite Cut_app_no_first_byte by done.
    rewrite (Cut_eq (String "/" _)). simpl.
    replace (HasPrefix (p +:+ String "/" tail) "/") with false.
    - rewrite Cut_app_no_first_byte by done.
      rewrite (Cut_eq (String "/" tail)). simpl. rewrite Htail.
      unfold Contains in Htail2.
      by destruct (Cut tail "//") as [[? ?]|].
    - destruct p as [|y p]; [done |]. apply Contains_cons in Hp as [Hy _].
      simpl. apply Ascii.eqb_neq in Hy. by rewrite Hy. }
  clear Hnep.
  unfold NewRemoteUrl. rewrite Hrem. simpl.
  rewrite Split_app_byte by done.
  rewrite Split_app_byte by done.
  rewrite Split_app_byte by done.
  done.
Qed.

Lemma NewRemoteUrl_ignores_tail_witness :
  NewRemoteUrl "https://gitlab.com/lighttiger2505/lab/merge_requests/3"
  = Returns
      (Some {| Url := "https://gitlab.com/lighttiger2505/lab/merge_requests/3";
               Domain := "gitlab.com"; User := "lighttiger2505";
               Repository := "lab" |}, None).
Proof.
  apply (NewRemoteUrl_ignores_tail "gitlab.com" "lighttiger2505" "lab"
           "merge_requests/3");
    first [reflexivity | split; [discriminate | reflexivity]].
Defined.

(** X5: a URL that starts with [ssh] and holds no [@], or starts with
    [https] and holds no double slash, makes the parser index the second
    element of a one-element slice: it panics and returns nothing. *)
Theorem NewRemoteUrl_no_separator_panics (url : string) :
  HasPrefix url "ssh" = true ∧ Contains url "@" = false ∨
  HasPrefix url "ssh" = false ∧ HasPrefix url "https" = true ∧
  Contains url "//" = false →
  NewRemoteUrl url = Panics (IndexOutOfRange 1 1).
Proof.
  unfold NewRemoteUrl, schemeRemainder, Contains.
  intros [[-> Hat] | (-> & -> & Hslash)].
  - rewrite Split_eq by done.
    by destruct (Cut url "@") as [[? ?]|].
  - rewrite Split_eq by done.
    by destruct (Cut url "//") as [[? ?]|].
Qed.

Lemma NewRemoteUrl_no_separator_panics_witness :
  NewRemoteUrl "ssh://gitlab.com/lighttiger2505/lab.git"
  = Panics (IndexOutOfRange 1 1).
Proof.
  apply (NewRemoteUrl_no_separator_panics
           "ssh://gitlab.com/lighttiger2505/lab.git").
  left. split; reflexivity.
Defined.

(** ** More on discovery *)

Lemma Forall_filter_true {A : Type} (f : A → bool) (P : A → Prop)
    (l : list A) :
  Forall P l → Forall (λ x, f x = true ∧ P x) (List.filter f l).
Proof.
  induction 1 as [|x l Hx _ IH]; simpl; [constructor |].
  destruct (f x) eqn:Hf; [by constructor | done].
Qed.

(** X6: the lines that [gitOutputs] returns are never blank and hold no
    line break, whatever the command printed. *)
Theorem gitOutputs_lines (env : GitEnv) (name : string) (args : list string) :
  Forall (λ line, isBlank line = false ∧ Contains line newline = false)
         (gitOutputs env name args).
Proof.
  unfold gitOutputs.
  eapply Forall_impl;
    [apply Forall_filter_true, (Split_segments_no_byte "010") |].
  intros line [Hblank Hline]. split; [|done].
  by apply negb_true_iff in Hblank.
Qed.

(** X7: when [git remote] prints white space only, [GitRemotes] reports
    that no remote is set, as it does for an empty output. *)
Theorem GitRemotes_blank_listing (env : GitEnv) :
  allSpace (cmdOutput env "git" ["remote"]) = true →
  GitRemotes env = Returns ([], Some "No remote setting in this repository").
Proof.
  intros Hspace. unfold GitRemotes, gitOutputs.
  by rewrite filter_blank_nil by (by apply allSpace_lines_blank).
Qed.

Lemma GitRemotes_blank_listing_witness :
  GitRemotes (workingCopy (" " +:+ newline +:+ newline) [])
  = Returns ([], Some "No remote setting in this repository").
Proof.
  apply (GitRemotes_blank_listing (workingCopy (" " +:+ newline +:+ newline) [])).
  reflexivity.
Defined.

Lemma FilterGitlabRemote_some (gitRemotes : list RemoteUrl) (r : RemoteUrl)
    (err : option error) :
  FilterGitlabRemote gitRemotes = (Some r, err) →
  err = None ∧
  ∃ before after, gitRemotes = before ++ r :: after ∧
                  Forall (λ x, isGitlab x = false) before ∧
                  isGitlab r = true.
Proof.
  induction gitRemotes as [|x l IH].
  - done.
  - destruct (isGitlab x) eqn:Hx.
    + rewrite FilterGitlabRemote_first by done. intros [= <- <-].
      split; [done |]. by exists [], l.
    + rewrite FilterGitlabRemote_skip by done.
      intros (-> & before & after & -> & Hbefore & Hr)%IH.
      split; [done |]. exists (x :: before), after.
      split; [done |]. split; [by constructor | done].
Qed.

Lemma FilterGitlabRemote_none (gitRemotes : list RemoteUrl)
    (err : option error) :
  FilterGitlabRemote gitRemotes = (None, err) →
  err = Some "Not a cloned repository from gitlab." ∧
  Forall (λ x, isGitlab x = false) gitRemotes.
Proof.
  induction gitRemotes as [|x l IH].
  - intros [= <-]. by split.
  - destruct (isGitlab x) eqn:Hx.
    + by rewrite FilterGitlabRemote_first.
    + rewrite FilterGitlabRemote_skip by done.
      intros [-> Hl]%IH. split; [done | by constructor].
Qed.

(** X8: [FilterGitlabRemote] returns either an element of the slice whose
    domain starts with [gitlab], with no such element before it and no
    error, or no element and the not-from-gitlab error, and then no domain
    in the slice starts with [gitlab]. *)
Theorem FilterGitlabRemote_outcomes (gitRemotes : list RemoteUrl) :
  match FilterGitlabRemote gitRemotes with
  | (Some r, None) =>
      ∃ before after, gitRemotes = before ++ r :: after ∧
                      Forall (λ x, isGitlab x = false) before ∧
                      isGitlab r = true
  | (None, Some msg) =>
      msg = "Not a cloned repository from gitlab." ∧
      Forall (λ x, isGitlab x = false) gitRemotes
  | _ => False
  end.
Proof.
  destruct (FilterGitlabRemote gitRemotes) as [[r|] err] eqn:H.
  - by apply FilterGitlabRemote_some in H as [-> H].
  - by apply FilterGitlabRemote_none in H as [-> H].
Qed.

Lemma identified_elem_r (env : GitEnv) (remotes : list string)
    (ids : list RemoteUrl) (r : RemoteUrl) :
  identified env remotes ids → r ∈ ids →
  ∃ remote, remote ∈ remotes ∧
            remoteIdentity env remote = Returns (Some r, None).
Proof.
  induction 1 as [|remote x remotes ids Hx _ IH]; intros Hin.
  - by apply elem_of_nil in Hin.
  - apply elem_of_cons in Hin as [->|Hin].
    + exists remote. split; [by left | done].
    + destruct (IH Hin) as (remote' & Hin' & Hr).
      exists remote'. split; [by right | done].
Qed.

(** X9: an identity that discovery returns is the identity of one of the
    configured remotes, its domain starts with [gitlab], and every remote
    resolved and parsed; the zero value at the head of the slice is never
    returned. *)
Theorem discover_sound (env : GitEnv) (r : RemoteUrl) :
  discover env = Returns (Some r, None) →
  isGitlab r = true ∧ r ≠ zeroRemoteUrl ∧
  (∃ remote, remote ∈ gitOutputs env "git" ["remote"] ∧
             remoteIdentity env remote = Returns (Some r, None)) ∧
  ∃ ids, identified env (gitOutputs env "git" ["remote"]) ids.
Proof.
  unfold discover.
  destruct (GitRemotes env) as [[gitRemotes [e|]]|p] eqn:Hg; simpl; try done.
  apply GitRemotes_returns in Hg as (_ & ids & -> & Hids).
  rewrite FilterGitlabRemote_skip by done.
  intros [= (_ & before & after & -> & _ & Hr)%FilterGitlabRemote_some].
  split; [done |]. split; [by intros -> |].
  split; [|by eexists].
  apply (identified_elem_r env _ _ r Hids).
  apply elem_of_app. right. by left.
Qed.

Lemma discover_sound_witness :
  isGitlab labUrl = true ∧ labUrl ≠ zeroRemoteUrl ∧
  (∃ remote, remote ∈ gitOutputs threeRemotes "git" ["remote"] ∧
             remoteIdentity threeRemotes remote = Returns (Some labUrl, None)) ∧
  ∃ ids, identified threeRemotes (gitOutputs threeRemotes "git" ["remote"]) ids.
Proof.
  apply (discover_sound threeRemotes labUrl). reflexivity.
Defined.

Lemma GitRemotes_loop_error (env : GitEnv) (remotes : list string)
    (gitRemotes result : list RemoteUrl) (e : error) :
  GitRemotes_loop env remotes gitRemotes = Returns (result, Some e) →
  result = [] ∧
  ∃ before remote after ids url identity perr,
    remotes = before ++ remote :: after ∧ identified env before ids ∧
    remoteUrlText env remote = Returns url ∧
    NewRemoteUrl url = Returns (identity, Some perr) ∧
    e = "Failed serialize remote url. " +:+ url.
Proof.
  revert gitRemotes.
  induction remotes as [|remote remotes IH]; intros gitRemotes; simpl; [done |].
  destruct (remoteUrlText env remote) as [url|] eqn:Hurl; [|done]. simpl.
  destruct (NewRemoteUrl url) as [[[r|] [perr|]]|] eqn:Hparse; simpl; try done.
  - intros [= <- <-]. split; [done |].
    exists [], remote, remotes, [], url, (Some r), perr.
    repeat split; try done. constructor.
  - intros (-> & before & bad & after & ids & u & identity & pe
            & -> & Hids & Hu & Hp & ->)%IH.
    split; [done |].
    exists (remote :: before), bad, after, (r :: ids), u, identity, pe.
    repeat split; try done.
    constructor; [|done]. unfold remoteIdentity. by rewrite Hurl.
  - intros [= <- <-]. split; [done |].
    exists [], remote, remotes, [], url, None, perr.
    repeat split; try done. constructor.
Qed.

(** X10: when [GitRemotes] returns an error it returns no slice, and the
    error is one of two: the no-remote error, when [git remote] printed no
    line, or the error that names the first URL the parser refused, all
    remotes before it having parsed; the parser's own message is dropped. *)
Theorem GitRemotes_errors (env : GitEnv) (gitRemotes : list RemoteUrl)
    (e : error) :
  GitRemotes env = Returns (gitRemotes, Some e) →
  gitRemotes = [] ∧
  (gitOutputs env "git" ["remote"] = [] ∧
   e = "No remote setting in this repository" ∨
   ∃ before remote after ids url identity perr,
     gitOutputs env "git" ["remote"] = before ++ remote :: after ∧
     identified env before ids ∧
     remoteUrlText env remote = Returns url ∧
     NewRemoteUrl url = Returns (identity, Some perr) ∧
     e = "Failed serialize remote url. " +:+ url).
Proof.
  unfold GitRemotes. case_bool_decide as Hlen.
  - intros [= <- <-]. split; [done |]. left.
    split; [by apply length_zero_iff_nil | done].
  - intros [-> H]%GitRemotes_loop_error. split; [done |]. by right.
Qed.

Lemma GitRemotes_errors_witness :
  ([] : list RemoteUrl) = [] ∧
  (gitOutputs scpStyle "git" ["remote"] = [] ∧
   "Failed serialize remote url. git@gitlab.com:lighttiger2505/lab.git"
   = "No remote setting in this repository" ∨
   ∃ before remote after ids url identity perr,
     gitOutputs scpStyle "git" ["remote"] = before ++ remote :: after ∧
     identified scpStyle before ids ∧
     remoteUrlText scpStyle remote = Returns url ∧
     NewRemoteUrl url = Returns (identity, Some perr) ∧
     "Failed serialize remote url. git@gitlab.com:lighttiger2505/lab.git"
     = "Failed serialize remote url. " +:+ url).
Proof.
  apply (GitRemotes_errors scpStyle []
           "Failed serialize remote url. git@gitlab.com:lighttiger2505/lab.git").
  reflexivity.
Defined.

(** ** The browser *)

Lemma searchCandidates_outcome (lookPath : string → string * option error)
    (bs : list string) :
  (∃ before b after,
     bs = before ++ b :: after ∧
     Forall (λ x, (lookPath x).2 ≠ None) before ∧
     lookPath b = (searchCandidates lookPath bs, None)) ∨
  (Forall (λ x, (lookPath x).2 ≠ None) bs ∧ searchCandidates lookPath bs = "").
Proof.
  induction bs as [|b bs IH]; simpl.
  - right. by split.
  - destruct (lookPath b) as [path [err|]] eqn:Hb.
    + destruct IH as [(before & x & after & -> & Hbefore & Hx) | [Hall Hnone]].
      * left. exists (b :: before), x, after.
        split; [done |]. split; [|done].
        constructor; [by rewrite Hb | done].
      * right. split; [|done]. constructor; [by rewrite Hb | done].
    + left. by exists [], b, bs.
Qed.

(** X11: on a system other than darwin and windows the launcher is the path
    that [LookPath] gives for the first candidate it finds, in the order
    xdg-open, cygstart, x-www-browser, firefox, opera, mozilla, netscape;
    when it finds none the launcher is the empty string. *)
Theorem searchBrowserLauncher_first_found
    (lookPath : string → string * option error) (goos : string) :
  goos ≠ "darwin" → goos ≠ "windows" →
  (∃ before b after,
     candidates = before ++ b :: after ∧
     Forall (λ x, (lookPath x).2 ≠ None) before ∧
     lookPath b = (searchBrowserLauncher lookPath goos, None)) ∨
  (Forall (λ x, (lookPath x).2 ≠ None) candidates ∧
   searchBrowserLauncher lookPath goos = "").
Proof.
  intros Hd Hw. unfold searchBrowserLauncher.
  destruct (String.eqb_spec goos "darwin"); [done |].
  destruct (String.eqb_spec goos "windows"); [done |].
  apply searchCandidates_outcome.
Qed.

Lemma searchBrowserLauncher_first_found_witness :
  (∃ before b after,
     candidates = before ++ b :: after ∧
     Forall (λ x, (firefoxOnly x).2 ≠ None) before ∧
     firefoxOnly b = (searchBrowserLauncher firefoxOnly "linux", None)) ∨
  (Forall (λ x, (firefoxOnly x).2 ≠ None) candidates ∧
   searchBrowserLauncher firefoxOnly "linux" = "").
Proof.
  apply (searchBrowserLauncher_first_found firefoxOnly "linux"); discriminate.
Defined.

(** ** The run of the browse command *)

Section BrowseRun.

Variable parse : list string → option error.
Variable lookPath : string → string * option error.
Variable goos : string.
Variable env : GitEnv.
Variable args : list string.




End BrowseRun.



(** ** The template *)

(** X14: for a title without line break, the template has the title as its
    first line, an empty second line, the lines of the description from the
    third line on, and a line break at its end. *)
Theorem editMergeRequestTemplate_lines (title description : string) :
  Contains title newline = false →
  Split (editMergeRequestTemplate title description) newline
  = title :: "" :: Split description newline ++ [""].
Proof.
  intros Htitle. unfold editMergeRequestTemplate, newline in *. simpl.
  rewrite Split_app_byte by done.
  pose proof (Split_app_byte "010" "" (description +:+ String "010" "")
                eq_refl) as Hsecond.
  simpl in Hsecond. rewrite Hsecond.
  by rewrite Split_app_sep.
Qed.

Lemma editMergeRequestTemplate_lines_witness :
  Split (editMergeRequestTemplate "Fix bug" ("one" +:+ newline +:+ "two"))
        newline
  = "Fix bug" :: "" :: Split ("one" +:+ newline +:+ "two") newline ++ [""].
Proof.
  apply (editMergeRequestTemplate_lines "Fix bug"
           ("one" +:+ newline +:+ "two")).
  reflexivity.
Defined.

(** ** Failures of the selection and the run *)

(** X15: [getMethod] returns a method and no error, or an error and no
    method.  The error is that of the merge-request client, else that of the
    repository client, else the invalid-identifier error on the first
    argument: a bad identifier is reported only once both clients were
    obtained. *)
Theorem getMethod_outcomes
    {MergeRequestClient RepositoryClient RemoteInfo EditFunc : Type}
    (RepositoryFullName : RemoteInfo → string)
    (c : @MergeRequestCommand MergeRequestClient RepositoryClient RemoteInfo
           EditFunc)
    (opt : MergeRequestCommandOption) (args : list string)
    (remote : RemoteInfo) :
  let client := GetMergeRequestClient (provider c) remote in
  let repositoryClient := GetRepositoryClient (provider c) remote in
  match getMethod RepositoryFullName c opt args remote with
  | (Some m, None) =>
      client.2 = None ∧ repositoryClient.2 = None ∧
      (validMergeRequestIID args).2 = None
  | (None, Some err) =>
      client.2 = Some err ∨
      client.2 = None ∧ repositoryClient.2 = Some err ∨
      client.2 = None ∧ repositoryClient.2 = None ∧
      ∃ arg0 rest, args = arg0 :: rest ∧ Strconv.Atoi arg0 = None ∧
                   err = "Invalid Issue IID. IID: " +:+ arg0
  | _ => False
  end.
Proof.
  unfold getMethod.
  destruct (GetMergeRequestClient (provider c) remote) as [cl [e1|]]; simpl;
    [by left |].
  destruct (GetRepositoryClient (provider c) remote) as [rc [e2|]]; simpl;
    [by right; left |].
  destruct args as [|arg0 rest]; simpl.
  - destruct (Edit _); [done |]. destruct (negb _); [done |].
    by destruct (AllProject _).
  - destruct (Strconv.Atoi arg0) as [iid|] eqn:Ha; simpl.
    + destruct (Edit _); [done |]. by destruct (hasCreateUpdateOption _).
    + right. right. repeat split; try done. by exists arg0, rest.
Qed.

Section MergeRequestRun.

Context {MergeRequestClient RepositoryClient RemoteInfo EditFunc : Type}.
Variable RepositoryFullName : RemoteInfo → string.
Variable ParseArgs :
  list string → (MergeRequestCommandOption * list string) * option error.
Variable Init : option error.
Variable GetCurrentRemote : RemoteInfo * option error.
Variable Process :
  @Method MergeRequestClient RepositoryClient EditFunc → string * option error.
Variable c :
  @MergeRequestCommand MergeRequestClient RepositoryClient RemoteInfo EditFunc.

(** X16: a run of the merge-request command makes at most one call on the
    Ui.  It returns 1 after one [Error] call, or it returns 0, and then the
    options parsed, the provider initialised and gave the remote, a method
    was selected from the parsed options and the remaining arguments, and
    its [Process] returned a result without error: that result is shown by
    one [Message] call, unless it is empty, when nothing is shown. *)
Theorem MR_Run_outcomes (args : list string) (code : Z) (calls : list UiCall) :
  MR.Run RepositoryFullName ParseArgs Init GetCurrentRemote Process c args
  = Returns (code, calls) →
  (code = 1%Z ∧ ∃ err, calls = [UiError err]) ∨
  (code = 0%Z ∧
   ∃ opt rest remote method res,
     ParseArgs args = ((opt, rest), None) ∧ Init = None ∧
     GetCurrentRemote = (remote, None) ∧
     getMethod RepositoryFullName c opt rest remote = (Some method, None) ∧
     Process method = (res, None) ∧
     calls = if String.eqb res "" then [] else [UiMessage res]).
Proof.
  unfold MR.Run.
  destruct (ParseArgs args) as [[opt rest] [e|]] eqn:Hparse; simpl.
  { intros [= <- <-]. left. by eauto. }
  destruct Init as [e|] eqn:Hinit; simpl.
  { intros [= <- <-]. left. by eauto. }
  destruct GetCurrentRemote as [remote [e|]] eqn:Hremote; simpl.
  { intros [= <- <-]. left. by eauto. }
  destruct (getMethod RepositoryFullName c opt rest remote)
    as [[method|] [e|]] eqn:Hmethod; simpl; try done;
    try (intros [= <- <-]; left; by eauto).
  destruct (Process method) as [res [e|]] eqn:Hprocess; simpl.
  { intros [= <- <-]. left. by eauto. }
  destruct (String.eqb res "") eqn:Hres; simpl; intros [= <- <-]; right;
    (split; [done |]); exists opt, rest, remote, method, res;
    by rewrite Hres.
Qed.

End MergeRequestRun.

Lemma MR_Run_outcomes_witness :
  (0%Z = 1%Z ∧ ∃ err, ([] : list UiCall) = [UiError err]) ∨
  (0%Z = 0%Z ∧
   ∃ opt rest remote method res,
     parseTitleOnly [] = ((opt, rest), None) ∧ (None : option error) = None ∧
     ((), (None : option error)) = (remote, None) ∧
     getMethod (λ _ : unit, "acme/widgets") unitCommand opt rest remote
     = (Some method, None) ∧
     processQuietly method = (res, None) ∧
     [] = if String.eqb res "" then [] else [UiMessage res]).
Proof.
  apply (MR_Run_outcomes (λ _ : unit, "acme/widgets") parseTitleOnly None
           ((), None) processQuietly unitCommand [] 0%Z []).
  reflexivity.
Defined.

(** ** The configuration file *)

Section ConfigFacts.

Import Config.

Variable m : Machine.

Lemma CreateConfig_frame (w : World) (other : string) :
  other ≠ configFile (homeDir m).1 →
  files (CreateConfig m w).2 !! other = files w !! other.
Proof.
  intros Hother. unfold CreateConfig.
  destruct (homeDir m) as [dir [eh|]]; simpl in *; [done |].
  destruct (createError m _) as [ec|]; simpl; [done |].
  destruct (fileWrite m _) as [written [ew|]]; simpl;
    by rewrite !lookup_insert_ne.
Qed.

Lemma CreateConfig_stdout (w : World) :
  stdout (CreateConfig m w).2 = stdout w ∨
  stdout (CreateConfig m w).2 = stdout w ++ [prompt].
Proof.
  unfold CreateConfig.
  destruct (homeDir m) as [dir [eh|]]; simpl; [by left |].
  destruct (createError m _) as [ec|]; simpl; [by left |].
  destruct (fileWrite m _) as [written [ew|]]; simpl; by right.
Qed.

(** X17: [ReadConfig] touches no file but [.labconfig.yml] in the home
    directory, and it prints nothing but, at most once, the prompt for the
    token. *)
Theorem ReadConfig_frame (w : World) (other : string) :
  other ≠ configFile (homeDir m).1 →
  files (ReadConfig m w).2 !! other = files w !! other ∧
  (stdout (ReadConfig m w).2 = stdout w ∨
   stdout (ReadConfig m w).2 = stdout w ++ [prompt]).
Proof.
  intros Hother. unfold ReadConfig.
  destruct (ReadInConfig m (files w)) as [e0|]; simpl; [|by split; [|left]].
  pose proof (CreateConfig_frame w other Hother) as Hframe.
  pose proof (CreateConfig_stdout w) as Hout.
  destruct (CreateConfig m w) as [[e1|] w1]; simpl in *; [done |].
  by destruct (ReadInConfig m (files w1)).
Qed.

(** X18: when [ReadConfig] returns no error, the configuration reads from
    the files it leaves. *)
Theorem ReadConfig_readable (w : World) :
  (ReadConfig m w).1 = None →
  ReadInConfig m (files (ReadConfig m w).2) = None.
Proof.
  unfold ReadConfig.
  destruct (ReadInConfig m (files w)) as [e0|] eqn:Hfirst; simpl; [|done].
  destruct (CreateConfig m w) as [[e1|] w1]; simpl; [done |].
  by destruct (ReadInConfig m (files w1)) eqn:Hsecond.
Qed.

(** X19: when the configuration does not read, the home directory is known,
    the file can be created and the write is complete, [ReadConfig] prompts
    once and leaves [private_token: ] followed by the line read in the
    file, whatever the file held before; its result is that of reading the
    new file. *)
Theorem ReadConfig_writes_token (w : World) (dir : string) :
  ReadInConfig m (files w) ≠ None →
  homeDir m = (dir, None) →
  createError m (configFile dir) = None →
  fileWrite m ("private_token: " +:+ scanned m)
  = ("private_token: " +:+ scanned m, None) →
  let w' := (ReadConfig m w).2 in
  files w' !! configFile dir = Some ("private_token: " +:+ scanned m) ∧
  stdout w' = stdout w ++ [prompt] ∧
  (ReadConfig m w).1
  = match ReadInConfig m (files w') with
    | Some err => Some ("Failed read config file: " +:+ err)
    | None => None
    end.
Proof.
  intros Hfirst Hhome Hcreate Hwrite.
  unfold ReadConfig, CreateConfig.
  destruct (ReadInConfig m (files w)) as [e|]; [|done].
  rewrite Hhome, Hcreate, Hwrite. simpl.
  destruct (ReadInConfig m _) eqn:Hsecond; simpl; rewrite ?Hsecond;
    by rewrite lookup_insert_eq.
Qed.

(** X20: an error of [ReadConfig] has one of four causes.  The home
    directory is unknown, or the file cannot be created: nothing was
    written or printed.  The write failed: the prompt was printed and the
    file holds what the write left.  Or the new file does not read.  The
    first three messages carry the create-failure prefix in front of the
    message of [CreateConfig]. *)
Theorem ReadConfig_errors (w w' : World) (msg : error) :
  ReadConfig m w = (Some msg, w') →
  ReadInConfig m (files w) ≠ None ∧
  ((∃ e, (homeDir m).2 = Some e ∧ w' = w ∧
         msg = "Failed create config file: Failed get home dir: " +:+ e) ∨
   (∃ e, (homeDir m).2 = None ∧
         createError m (configFile (homeDir m).1) = Some e ∧ w' = w ∧
         msg = "Failed create config file: Failed create config file: "
               +:+ e) ∨
   (∃ e written,
      fileWrite m ("private_token: " +:+ scanned m) = (written, Some e) ∧
      files w' !! configFile (homeDir m).1 = Some written ∧
      stdout w' = stdout w ++ [prompt] ∧
      msg = "Failed create config file: Failed write config file: " +:+ e) ∨
   (∃ e, CreateConfig m w = (None, w') ∧
         ReadInConfig m (files w') = Some e ∧
         msg = "Failed read config file: " +:+ e)).
Proof.
  unfold ReadConfig.
  destruct (ReadInConfig m (files w)) as [e0|] eqn:Hfirst; [|done].
  intros H. split; [done |]. revert H.
  destruct (CreateConfig m w) as [[e|] w1] eqn:Hcreate; simpl.
  - intros [= <- <-]. revert Hcreate. unfold CreateConfig.
    destruct (homeDir m) as [dir [eh|]]; simpl.
    { intros [= <- <-]. left. by exists eh. }
    destruct (createError m _) as [ec|] eqn:Hc; simpl.
    { intros [= <- <-]. right. left. by exists ec. }
    destruct (fileWrite m _) as [written [ew|]] eqn:Hw; simpl; [|done].
    intros [= <- <-]. right. right. left. exists ew, written. simpl.
    by rewrite lookup_insert_eq.
  - destruct (ReadInConfig m (files w1)) as [e2|] eqn:Hsecond; [|done].
    intros [= <- <-]. right. right. right. by exists e2.
Qed.

End ConfigFacts.

Lemma ReadConfig_frame_witness :
  Config.files (Config.ReadConfig myMachine staleWorld).2 !! "/home/me/notes"
  = Config.files staleWorld !! "/home/me/notes" ∧
  (Config.stdout (Config.ReadConfig myMachine staleWorld).2
   = Config.stdout staleWorld ∨
   Config.stdout (Config.ReadConfig myMachine staleWorld).2
   = Config.stdout staleWorld ++ [Config.prompt]).
Proof.
  apply (ReadConfig_frame myMachine staleWorld "/home/me/notes").
  discriminate.
Defined.

Lemma ReadConfig_readable_witness :
  Config.ReadInConfig myMachine
    (Config.files (Config.ReadConfig myMachine staleWorld).2) = None.
Proof.
  apply (ReadConfig_readable myMachine staleWorld). reflexivity.
Defined.

Lemma ReadConfig_writes_token_witness :
  Config.files (Config.ReadConfig myMachine staleWorld).2 !! configPath
  = Some "private_token: s3cret" ∧
  Config.stdout (Config.ReadConfig myMachine staleWorld).2
  = Config.stdout staleWorld ++ [Config.prompt] ∧
  (Config.ReadConfig myMachine staleWorld).1
  = match Config.ReadInConfig myMachine
            (Config.files (Config.ReadConfig myMachine staleWorld).2) with
    | Some err => Some ("Failed read config file: " +:+ err)
    | None => None
    end.
Proof.
  apply (ReadConfig_writes_token myMachine staleWorld "/home/me");
    first [reflexivity | discriminate].
Defined.

Lemma ReadConfig_errors_witness :
  Config.ReadInConfig homeless (Config.files staleWorld) ≠ None ∧
  ((∃ e, (Config.homeDir homeless).2 = Some e ∧ staleWorld = staleWorld ∧
         "Failed create config file: Failed get home dir: $HOME is not defined"
         = "Failed create config file: Failed get home dir: " +:+ e) ∨
   (∃ e, (Config.homeDir homeless).2 = None ∧
         Config.createError homeless
           (Config.configFile (Config.homeDir homeless).1) = Some e ∧
         staleWorld = staleWorld ∧
         "Failed create config file: Failed get home dir: $HOME is not defined"
         = "Failed create config file: Failed create config file: " +:+ e) ∨
   (∃ e written,
      Config.fileWrite homeless
        ("private_token: " +:+ Config.scanned homeless) = (written, Some e) ∧
      Config.files staleWorld
        !! Config.configFile (Config.homeDir homeless).1 = Some written ∧
      Config.stdout staleWorld = Config.stdout staleWorld ++ [Config.prompt] ∧
      "Failed create config file: Failed get home dir: $HOME is not defined"
      = "Failed create config file: Failed write config file: " +:+ e) ∨
   (∃ e, Config.CreateConfig homeless staleWorld = (None, staleWorld) ∧
         Config.ReadInConfig homeless (Config.files staleWorld) = Some e ∧
         "Failed create config file: Failed get home dir: $HOME is not defined"
         = "Failed read config file: " +:+ e)).
Proof.
  apply (ReadConfig_errors homeless staleWorld staleWorld
           "Failed create config file: Failed get home dir: $HOME is not defined").
  reflexivity.
Defined.

(** ** More on the editor flow and the identifier *)

(** X21: for every editor, when the flow returns an error the title and the
    description it returns are empty; when it returns none, they are those
    the edit returned, and the file of the editor, if there is an editor,
    does not exist any more. *)
Theorem editIssueTitleAndDesc_results {EditFunc : Type}
    (NewEditor :
       string → string → string → EditFunc → gset string →
       (option Editor * option error) * gset string)
    (EditTitleAndDescription :
       option Editor → gset string →
       outcome (string * string * option error) * gset string)
    (template : string) (edit : EditFunc) (files files' : gset string)
    (title description : string) (err : option error) :
  editIssueTitleAndDesc NewEditor EditTitleAndDescription template edit files
  = (Returns (title, description, err), files') →
  match err with
  | Some _ => title = "" ∧ description = ""
  | None =>
      ∃ editor files1 files2,
        NewEditor "ISSUE" "issue" template edit files
        = ((editor, None), files1) ∧
        EditTitleAndDescription editor files1
        = (Returns (title, description, None), files2) ∧
        ∀ e, editor = Some e → files' = files2 ∖ {[ File e ]} ∧ File e ∉ files'
  end.
Proof.
  unfold editIssueTitleAndDesc.
  destruct (NewEditor _ _ _ _ _) as [[editor [e0|]] files1] eqn:Hnew.
  { by intros [= <- <- <- <-]. }
  destruct (EditTitleAndDescription editor files1)
    as [[[[t d] [e1|]]|p] files2] eqn:Hedit; [| |done].
  { by intros [= <- <- <- <-]. }
  intros [= <- <- <- <-]. exists editor, files1, files2.
  split; [done |]. split; [done |]. intros e ->. unfold DeleteFile.
  split; [done |].
  apply not_elem_of_difference. right. by apply elem_of_singleton.
Qed.

Lemma editIssueTitleAndDesc_results_witness :
  ∃ editor files1 files2,
    newIssueEditor "ISSUE" "issue" "" () ∅ = ((editor, None), files1) ∧
    completedEdit editor files1 = (Returns ("Fix bug", "", None), files2) ∧
    ∀ e, editor = Some e →
         (editIssueTitleAndDesc newIssueEditor completedEdit "" () ∅).2
         = files2 ∖ {[ File e ]} ∧
         File e ∉ (editIssueTitleAndDesc newIssueEditor completedEdit "" () ∅).2.
Proof.
  apply (editIssueTitleAndDesc_results newIssueEditor completedEdit "" () ∅
           (editIssueTitleAndDesc newIssueEditor completedEdit "" () ∅).2
           "Fix bug" "" None).
  reflexivity.
Defined.

Lemma integerLiteral_unsigned (s : string) :
  unsignedLiteral s = true → integerLiteral s = Some (denotes s).
Proof.
  destruct s as [|c s]; [done |].
  intros H. unfold integerLiteral.
  destruct c as [[] [] [] [] [] [] [] []]; try done; by rewrite H.
Qed.

(** X22: a plus sign or a zero in front of a non-negative literal that is
    accepted as an identifier is accepted too, and the identifier is the
    same. *)
Theorem validMergeRequestIID_plus_and_zero (s : string) :
  unsignedLiteral s = true → (validMergeRequestIID [s]).2 = None →
  validMergeRequestIID ["+" +:+ s] = validMergeRequestIID [s] ∧
  validMergeRequestIID ["0" +:+ s] = validMergeRequestIID [s].
Proof.
  intros Hs. unfold validMergeRequestIID.
  rewrite !Atoi_integerLiteral, (integerLiteral_unsigned s Hs).
  assert (integerLiteral ("+" +:+ s) = Some (denotes s)) as ->.
  { simpl. by rewrite Hs. }
  assert (integerLiteral ("0" +:+ s) = Some (denotes s)) as ->.
  { rewrite integerLiteral_unsigned.
    - simpl. f_equal; lia.
    - unfold unsignedLiteral in *. simpl.
      by apply andb_true_iff in Hs as [_ ->]. }
  by case_bool_decide.
Qed.

Lemma validMergeRequestIID_plus_and_zero_witness :
  validMergeRequestIID ["+" +:+ "42"] = validMergeRequestIID ["42"] ∧
  validMergeRequestIID ["0" +:+ "42"] = validMergeRequestIID ["42"].
Proof.
  apply (validMergeRequestIID_plus_and_zero "42"); reflexivity.
Defined.
